(** * SKS API server: the search tracker and the admin reporter

    A shallow embedding of the request handlers of [server.js]:

    - [POST /api/track-search] as in [src/server.js] (module [TrackSearch]),
    - [POST /api/search-result], the later variant of the same handler
      (module [SearchResult]),
    - [GET /api/admin/searches] in both variants,

    over a model of the two MySQL tables of [database.js].  The handlers are
    written in a small state-and-exception monad whose state holds the
    database, the response object [res] and the trace of what the handler
    did (statements sent, console lines, the response). *)

From Stdlib Require Import ZArith String Ascii List DecimalString.
From Stdlib Require Import DecimalFacts DecimalPos.
From stdpp Require Import base option list gmap strings fin_maps sorting.

Local Open Scope string_scope.
Local Open Scope Z_scope.
Local Open Scope list_scope.

(** ** JavaScript values of a parsed JSON body *)

Module JS.

(** The value of [req.body.mobileNumber] after [express.json()]: the field
    may be missing ([JUndefined]) or hold a JSON primitive.  [JNum] carries
    the value of a number that is integral and below [10^21] in magnitude
    (JSON [1234567890], [1e9], [-0] as [0]), which JavaScript prints in
    plain decimal; other numbers, arrays and objects are outside this
    model. *)
Inductive jsval : Type :=
  | JUndefined
  | JNull
  | JBool (b : bool)
  | JNum (n : Z)
  | JStr (s : string).

(** ToBoolean, as used by [!v] and [v || w]. *)
Definition truthy (v : jsval) : bool :=
  match v with
  | JUndefined | JNull => false
  | JBool b => b
  | JNum n => negb (n =? 0)%Z
  | JStr s => negb (String.eqb s "")
  end.

(** [v || w] *)
Definition or_else (v w : jsval) : jsval := if truthy v then v else w.

(** Number::toString on an integral value: decimal digits, [-] when
    negative. *)
Definition Number_toString (n : Z) : string :=
  NilZero.string_of_int (Z.to_int n).

(** ToString, applied by [RegExp.prototype.test] to its argument. *)
Definition ToString (v : jsval) : string :=
  match v with
  | JUndefined => "undefined"
  | JNull => "null"
  | JBool true => "true"
  | JBool false => "false"
  | JNum n => Number_toString n
  | JStr s => s
  end.

(** [\d] without the unicode flag: the ASCII digits [0]..[9]. *)
Definition is_digit (c : ascii) : bool :=
  let n := nat_of_ascii c in (48 <=? n)%nat && (n <=? 57)%nat.

(** [^\d{n}$]: exactly [n] digits and then the end of the input (there is
    no [m] flag, so [$] is the end of the string only). *)
Fixpoint digits_then_end (n : nat) (s : string) : bool :=
  match n, s with
  | O, EmptyString => true
  | S n', String c s' => is_digit c && digits_then_end n' s'
  | _, _ => false
  end.

(** [/^\d{10}$/.test(v)] *)
Definition re_10_digits_test (v : jsval) : bool :=
  digits_then_end 10 (ToString v).

(** The guard of the validation gate,
    [!mobileNumber || !/^\d{10}$/.test(mobileNumber)]. *)
Definition invalid_mobile_number (mobileNumber : jsval) : bool :=
  negb (truthy mobileNumber) || negb (re_10_digits_test mobileNumber).

(** The spec's notion of a valid number: a string of exactly ten decimal
    digits. *)
Definition ten_digit_string (s : string) : bool := digits_then_end 10 s.

(** A value of [req.query.secret]: missing, a string, or what the query
    parser builds for repeated or bracketed keys (an array or an object). *)
Inductive queryval : Type :=
  | QUndefined
  | QStr (s : string)
  | QNested.

(** [q === v] for [v] read from [process.env] (a string or undefined). *)
Definition strict_eq (q : queryval) (v : option string) : bool :=
  match q, v with
  | QUndefined, None => true
  | QStr a, Some b => String.eqb a b
  | _, _ => false
  end.

End JS.
Import JS.

(** ** The tables of [database.js] and the statements the handlers send *)

Module Storage.

(** A row of [test_results] ([SELECT *]). *)
Record TestResult : Type := {
  tr_id : Z;
  tr_name : string;
  phone : string;
  current_group : option string;
  exam_date : option string;
  result : option string
}.

(** The columns of [mobile_searches] other than its unique key. *)
Record SearchColumns : Type := {
  sr_id : Z;
  click_count : Z;
  sr_name : option string;
  last_updated : Z
}.

(** A row of [mobile_searches] as the admin query returns it. *)
Record SearchRecord : Type := {
  mobile_number : string;
  columns :> SearchColumns
}.

(** [mobile_number] is [NOT NULL UNIQUE]: the table is a finite map from
    the key to the other columns.  [phone] is compared by the lookup only,
    so [test_results] is kept as the list of its rows. *)
Record Database : Type := {
  mobile_searches : gmap string SearchColumns;
  test_results : list TestResult;
  auto_increment : Z
}.

(** The statements passed to [pool.execute], with their parameters. *)
Inductive statement : Type :=
  | InsertSearch (mobile_number : jsval)
      (* INSERT INTO mobile_searches (mobile_number, click_count, name)
         VALUES (?, 1, NULL)
         ON DUPLICATE KEY UPDATE click_count = click_count + 1,
                                 last_updated = CURRENT_TIMESTAMP *)
  | SelectTestResult (phone : jsval)
      (* SELECT * FROM test_results WHERE phone = ? *)
  | UpdateName (name : string) (mobile_number : jsval)
      (* UPDATE mobile_searches SET name = ? WHERE mobile_number = ? *)
  | SelectSearches.
      (* SELECT id, mobile_number, click_count, name, last_updated
         FROM mobile_searches ORDER BY last_updated DESC *)

Definition is_InsertSearch (q : statement) : bool :=
  match q with InsertSearch _ => true | _ => false end.

Definition is_SelectTestResult (q : statement) : bool :=
  match q with SelectTestResult _ => true | _ => false end.

(** What [pool.execute] hands back: the rows of a [SELECT], or the header
    of a write. *)
Inductive rowset : Type :=
  | ResultSetHeader
  | TestResultRows (rows : list TestResult)
  | SearchRows (rows : list SearchRecord).

(** A bound parameter as the VARCHAR columns see it.  The driver refuses
    [undefined]; [NULL] neither fits the [NOT NULL] key nor equals any
    value. *)
Definition as_varchar (v : jsval) : option string :=
  match v with
  | JStr s => Some s
  | JNum n => Some (Number_toString n)
  | JBool b => Some (if b then "1" else "0")
  | JNull | JUndefined => None
  end.

(** [INSERT ... ON DUPLICATE KEY UPDATE] on key [k] at time [now]. *)
Definition upsert (now : Z) (k : string) (d : Database) : Database :=
  match mobile_searches d !! k with
  | None =>
      {| mobile_searches :=
           <[k := {| sr_id := auto_increment d; click_count := 1;
                     sr_name := None; last_updated := now |}]>
             (mobile_searches d);
         test_results := test_results d;
         auto_increment := auto_increment d + 1 |}
  | Some r =>
      {| mobile_searches :=
           <[k := {| sr_id := sr_id r; click_count := click_count r + 1;
                     sr_name := sr_name r; last_updated := now |}]>
             (mobile_searches d);
         test_results := test_results d;
         auto_increment := auto_increment d |}
  end.

(** [UPDATE mobile_searches SET name = ? WHERE mobile_number = ?]; the
    column [last_updated] is [ON UPDATE CURRENT_TIMESTAMP], so it moves
    when the name changes. *)
Definition update_name (now : Z) (n k : string) (d : Database) : Database :=
  match mobile_searches d !! k with
  | None => d
  | Some r =>
      if decide (sr_name r = Some n) then d
      else
        {| mobile_searches :=
             <[k := {| sr_id := sr_id r; click_count := click_count r;
                       sr_name := Some n; last_updated := now |}]>
               (mobile_searches d);
           test_results := test_results d;
           auto_increment := auto_increment d |}
  end.

(** [WHERE phone = ?] *)
Definition select_test_result (k : string) (d : Database) : list TestResult :=
  filter (λ r, phone r = k) (test_results d).

(** [ORDER BY last_updated DESC]: [a] may come before [b]. *)
Definition more_recent (a b : SearchRecord) : Prop :=
  last_updated b ≤ last_updated a.

#[export] Instance more_recent_dec : RelDecision more_recent.
Proof. intros a b. unfold more_recent. apply _. Defined.

#[export] Instance more_recent_total : Total more_recent.
Proof. intros a b. unfold more_recent. lia. Qed.

#[export] Instance more_recent_trans : Transitive more_recent.
Proof. intros a b c. unfold more_recent. lia. Qed.

Definition all_searches (d : Database) : list SearchRecord :=
  (λ kv, {| mobile_number := kv.1; columns := kv.2 |})
    <$> map_to_list (mobile_searches d).

Definition select_searches (d : Database) : list SearchRecord :=
  merge_sort more_recent (all_searches d).

(** One statement, run to completion.  [None] is the statement rejected
    (a parameter that does not bind); the tables are then unchanged. *)
Definition run (now : Z) (q : statement) (d : Database)
  : option (rowset * Database) :=
  match q with
  | InsertSearch p =>
      k ← as_varchar p; Some (ResultSetHeader, upsert now k d)
  | SelectTestResult p =>
      k ← as_varchar p; Some (TestResultRows (select_test_result k d), d)
  | UpdateName n p =>
      k ← as_varchar p; Some (ResultSetHeader, update_name now n k d)
  | SelectSearches => Some (SearchRows (select_searches d), d)
  end.

End Storage.
Import Storage.

(** ** Requests, responses and the handler monad *)

Module Express.

(** What the handlers read of a request.  The JSON body parser leaves an
    object in [req.body] also when the request has no body, so the field
    [mobileNumber] is read from an object in every case. *)
Record Request : Type := {
  method : string;
  body_mobileNumber : jsval;   (* req.body.mobileNumber *)
  query_secret : queryval      (* req.query.secret *)
}.

(** The JSON bodies the handlers send.  A field of type [option] is one
    that may be missing from the serialised object: [res.json] leaves out
    a property that was never set or whose value is [undefined]. *)
Inductive Body : Type :=
  | BError (error : string)
      (* { error } *)
  | BResult (data : TestResult) (whatsappLink : option string)
      (* { success: true, data, whatsappLink? } *)
  | BSearches (data : list SearchRecord) (total : Z).
      (* { success: true, data, total } *)

Record Response : Type := { status : Z; body : Body }.

Inductive error : Type :=
  | StorageError (q : statement)
  | HeadersAlreadySent.

Inductive event : Type :=
  | Execute (q : statement)        (* a call of pool.execute *)
  | ConsoleError (tag : string)    (* console.error(tag, err) *)
  | Respond (r : Response).        (* the response leaves *)

(** What a request finds around it: [process.env], the statements the
    storage layer fails to run while the request is served, and the value
    of [CURRENT_TIMESTAMP]. *)
Record Env : Type := {
  ADMIN_SECRET : option string;
  WHATSAPP_LINK : option string;
  storage_down : statement → bool;
  CURRENT_TIMESTAMP : Z
}.

Record World : Type := {
  db : Database;
  res : option Response;   (* [Some] once the headers are sent *)
  trace : list event
}.

Inductive completion (A : Type) : Type :=
  | Normal (a : A)
  | Thrown (err : error).
Arguments Normal {A} a.
Arguments Thrown {A} err.

Definition M (A : Type) : Type := Env → World → completion A * World.

Definition ret {A} (a : A) : M A := λ _ w, (Normal a, w).

Definition bind {A B} (m : M A) (k : A → M B) : M B := λ e w,
  match m e w with
  | (Normal a, w') => k a e w'
  | (Thrown err, w') => (Thrown err, w')
  end.

(** [try { m } catch (err) { h err }] *)
Definition try_catch {A} (m : M A) (h : error → M A) : M A := λ e w,
  match m e w with
  | (Normal a, w') => (Normal a, w')
  | (Thrown err, w') => h err e w'
  end.

Definition process_env {A} (var : Env → A) : M A := λ e w, (Normal (var e), w).

Definition emit (ev : event) (w : World) : World :=
  {| db := db w; res := res w; trace := trace w ++ [ev] |}.

Definition console_error (tag : string) (err : error) : M unit := λ _ w,
  (Normal tt, emit (ConsoleError tag) w).

(** [await pool.execute(q)]: rejected when the storage layer is down for
    [q] or refuses it, and then without effect on the tables. *)
Definition pool_execute (q : statement) : M rowset := λ e w,
  let w := emit (Execute q) w in
  if storage_down e q then (Thrown (StorageError q), w)
  else
    match run (CURRENT_TIMESTAMP e) q (db w) with
    | Some (rows, d) =>
        (Normal rows, {| db := d; res := res w; trace := trace w |})
    | None => (Thrown (StorageError q), w)
    end.

(** The rows of [const [rows] = await pool.execute(...)]. *)
Definition test_result_rows (r : rowset) : list TestResult :=
  match r with TestResultRows rows => rows | _ => [] end.

Definition search_rows (r : rowset) : list SearchRecord :=
  match r with SearchRows rows => rows | _ => [] end.

(** [res.status(code).json(b)] *)
Definition res_status_json (code : Z) (b : Body) : M unit := λ _ w,
  match res w with
  | Some _ => (Thrown HeadersAlreadySent, w)
  | None =>
      let r := {| status := code; body := b |} in
      (Normal tt,
       {| db := db w; res := Some r; trace := trace w ++ [Respond r] |})
  end.

(** [res.json(b)] *)
Definition res_json (b : Body) : M unit := res_status_json 200 b.

(** [res.headersSent] *)
Definition headersSent : M bool := λ _ w,
  (Normal (bool_decide (is_Some (res w))), w).

(** A handler run on a request, from a fresh [res] and an empty trace. *)
Definition serve (h : Request → M unit) (e : Env) (req : Request)
    (d : Database) : World :=
  (h req e {| db := d; res := None; trace := [] |}).2.

(** Requests served one after the other, each with its own surroundings. *)
Fixpoint serve_all (h : Request → M unit) (reqs : list (Env * Request))
    (d : Database) : Database :=
  match reqs with
  | [] => d
  | (e, req) :: reqs' => serve_all h reqs' (db (serve h e req d))
  end.

End Express.
Import Express.

Declare Scope handler_scope.
Delimit Scope handler_scope with handler.
Notation "'let*' x ':=' m 'in' k" := (bind m (λ x, k))
  (at level 10, x name, m at level 100, k at level 200) : handler_scope.
Notation "m1 '>>' m2" := (bind m1 (λ _, m2))
  (at level 100, m2 at level 200, right associativity) : handler_scope.
Local Open Scope handler_scope.

(** ** [src/server.js] *)

Module TrackSearch.

(** [app.post('/api/track-search', async (req, res) => ...)] *)
Definition track_search (req : Request) : M unit :=
  try_catch
    (let mobileNumber := body_mobileNumber req in
     (* Always update mobile_searches table first *)
     try_catch
       (let* _ := pool_execute (InsertSearch (or_else mobileNumber (JStr ""))) in
        ret tt)
       (λ dbError, console_error "Database tracking error:" dbError) >>
     if invalid_mobile_number mobileNumber then
       res_status_json 400 (BError "Invalid mobile number")
     else
       (* Query test_results table *)
       let* rows := pool_execute (SelectTestResult mobileNumber) in
       let testResult := test_result_rows rows in
       (* Update name if test result found *)
       match testResult with
       | row :: _ =>
           try_catch
             (let* _ := pool_execute (UpdateName (tr_name row) mobileNumber) in
              ret tt)
             (λ updateError, console_error "Name update error:" updateError)
       | [] => ret tt
       end >>
       match testResult with
       | [] =>
           res_status_json 404
             (BError "No test result found for this mobile number")
       | row :: _ => res_json (BResult row None)
       end)
    (λ error,
       console_error "Track search error:" error >>
       let* sent := headersSent in
       if negb sent then res_status_json 500 (BError "Internal server error")
       else ret tt).

(** [app.get('/api/admin/searches', async (req, res) => ...)] *)
Definition admin_searches (req : Request) : M unit :=
  try_catch
    (let secret := query_secret req in
     let* configured := process_env ADMIN_SECRET in
     if negb (strict_eq secret configured) then
       res_status_json 401 (BError "Unauthorized")
     else
       let* rows := pool_execute SelectSearches in
       let result := search_rows rows in
       res_json (BSearches result (Z.of_nat (length result))))
    (λ error,
       console_error "Admin searches error:" error >>
       let* sent := headersSent in
       if negb sent then res_status_json 500 (BError "Internal server error")
       else ret tt).

End TrackSearch.

(** ** The later variant of [server.js], serving [/api/search-result] *)

Module SearchResult.

(** [app.post('/api/search-result', async (req, res) => ...)] *)
Definition search_result (req : Request) : M unit :=
  try_catch
    (let mobileNumber := body_mobileNumber req in
     (* Only track actual POST requests, not OPTIONS *)
     (if String.eqb (method req) "POST" && truthy mobileNumber then
        try_catch
          (let* _ := pool_execute (InsertSearch mobileNumber) in ret tt)
          (λ dbError, console_error "Database tracking error:" dbError)
      else ret tt) >>
     if invalid_mobile_number mobileNumber then
       res_status_json 400 (BError "Invalid mobile number")
     else
       (* Query test_results table with error handling; [None] is the
          [return] of the catch clause *)
       let* found :=
         try_catch
           (let* rows := pool_execute (SelectTestResult mobileNumber) in
            ret (Some (test_result_rows rows)))
           (λ dbError,
              console_error "Database query error:" dbError >>
              res_status_json 500 (BError "Database temporarily unavailable") >>
              ret None) in
       match found with
       | None => ret tt
       | Some testResult =>
           (* Update name if test result found *)
           match testResult with
           | row :: _ =>
               try_catch
                 (let* _ := pool_execute (UpdateName (tr_name row) mobileNumber) in
                  ret tt)
                 (λ updateError, console_error "Name update error:" updateError)
           | [] => ret tt
           end >>
           match testResult with
           | [] =>
               res_status_json 404
                 (BError "No test result found for this mobile number")
           | row :: _ =>
               (* Only add whatsappLink if result is 'Selected' *)
               let* link := process_env WHATSAPP_LINK in
               res_json
                 (BResult row
                    (if decide (result row = Some "Selected") then link
                     else None))
           end
       end)
    (λ error,
       console_error "Track search error:" error >>
       let* sent := headersSent in
       if negb sent then res_status_json 500 (BError "Internal server error")
       else ret tt).

(** [app.get('/api/admin/searches', async (req, res) => ...)] *)
Definition admin_searches (req : Request) : M unit :=
  try_catch
    (let secret := query_secret req in
     let* configured := process_env ADMIN_SECRET in
     if negb (strict_eq secret configured) then
       res_status_json 401 (BError "Unauthorized")
     else
       let* found :=
         try_catch
           (let* rows := pool_execute SelectSearches in
            ret (Some (search_rows rows)))
           (λ dbError,
              console_error "Admin query error:" dbError >>
              res_status_json 500 (BError "Database temporarily unavailable") >>
              ret None) in
       match found with
       | None => ret tt
       | Some result =>
           res_json (BSearches result (Z.of_nat (length result)))
       end)
    (λ error,
       console_error "Admin searches error:" error >>
       let* sent := headersSent in
       if negb sent then res_status_json 500 (BError "Internal server error")
       else ret tt).

End SearchResult.

(** ** The routes under study, and what a run leaves behind *)

Inductive route : Type :=
  | api_track_search     (* POST /api/track-search, src/server.js *)
  | api_search_result.   (* POST /api/search-result, the later variant *)

Definition handler (r : route) : Request → M unit :=
  match r with
  | api_track_search => TrackSearch.track_search
  | api_search_result => SearchResult.search_result
  end.

Definition admin_handler (r : route) : Request → M unit :=
  match r with
  | api_track_search => TrackSearch.admin_searches
  | api_search_result => SearchResult.admin_searches
  end.

(** The parameter of the tracking statement a request leads to, if any:
    [mobileNumber || ''] in [server.js]; [mobileNumber] under the guard
    [req.method === 'POST' && mobileNumber] in the later variant. *)
Definition tracking_parameter (r : route) (req : Request) : option jsval :=
  match r with
  | api_track_search => Some (or_else (body_mobileNumber req) (JStr ""))
  | api_search_result =>
      if String.eqb (method req) "POST" && truthy (body_mobileNumber req)
      then Some (body_mobileNumber req) else None
  end.

(** The key under which a request is counted. *)
Definition tracking_key (r : route) (req : Request) : option string :=
  tracking_parameter r req ≫= as_varchar.

(** The parameters of the tracking statements in a trace, in order. *)
Definition upserts (t : list event) : list jsval :=
  omap (λ ev, match ev with
              | Execute (InsertSearch p) => Some p
              | _ => None
              end) t.

(** The parameters of the [test_results] queries in a trace, in order. *)
Definition lookups (t : list event) : list jsval :=
  omap (λ ev, match ev with
              | Execute (SelectTestResult p) => Some p
              | _ => None
              end) t.

(** [click_count] of the record of [k]; [0] while there is none. *)
Definition clicks (k : string) (d : Database) : Z :=
  from_option click_count 0 (mobile_searches d !! k).

(** The storage layer runs every tracking statement of the batch. *)
Definition tracking_up (r : route) (reqs : list (Env * Request)) : Prop :=
  Forall (λ er, ∀ p, tracking_parameter r er.2 = Some p →
                     storage_down er.1 (InsertSearch p) = false) reqs.

(** The number of requests of the batch that are counted under [k]. *)
Definition tracked_requests (r : route) (k : string)
    (reqs : list (Env * Request)) : Z :=
  Z.of_nat (length (filter (λ er, tracking_key r er.2 = Some k) reqs)).

(** [e], but with the storage layer running every tracking statement. *)
Definition with_tracking_up (e : Env) : Env :=
  {| ADMIN_SECRET := ADMIN_SECRET e;
     WHATSAPP_LINK := WHATSAPP_LINK e;
     storage_down := λ q, if is_InsertSearch q then false else storage_down e q;
     CURRENT_TIMESTAMP := CURRENT_TIMESTAMP e |}.

(** What the lookup of a request gives: [None] when the query fails. *)
Definition lookup_outcome (e : Env) (mobileNumber : jsval) (d : Database)
  : option (list TestResult) :=
  if storage_down e (SelectTestResult mobileNumber) then None
  else k ← as_varchar mobileNumber; Some (select_test_result k d).

(** The response as a function of the validation check, the outcome of
    the lookup and the configuration. *)
Definition expected_response (r : route) (link : option string)
    (mobileNumber : jsval) (found : option (list TestResult)) : Response :=
  if invalid_mobile_number mobileNumber then
    {| status := 400; body := BError "Invalid mobile number" |}
  else
    match found with
    | None =>
        {| status := 500;
           body := BError match r with
                          | api_track_search => "Internal server error"
                          | api_search_result => "Database temporarily unavailable"
                          end |}
    | Some [] =>
        {| status := 404;
           body := BError "No test result found for this mobile number" |}
    | Some (row :: _) =>
        {| status := 200;
           body := BResult row
                     match r with
                     | api_track_search => None
                     | api_search_result =>
                         if decide (result row = Some "Selected") then link
                         else None
                     end |}
    end.

(** *** A run, phase by phase

    The three phases of a handler (track, look up, reconcile) as functions
    of the request and its surroundings; [handler_run] below shows that the
    handlers compute exactly these. *)

Definition tracking_events (r : route) (e : Env) (req : Request) : list event :=
  match tracking_parameter r req with
  | Some p =>
      Execute (InsertSearch p)
        :: (if storage_down e (InsertSearch p)
            then [ConsoleError "Database tracking error:"] else [])
  | None => []
  end.

Definition after_tracking (r : route) (e : Env) (req : Request)
    (d : Database) : Database :=
  match tracking_parameter r req with
  | Some p =>
      if storage_down e (InsertSearch p) then d
      else from_option (λ k, upsert (CURRENT_TIMESTAMP e) k d) d (as_varchar p)
  | None => d
  end.

Definition lookup_events (r : route) (e : Env) (mobileNumber : jsval)
    (found : option (list TestResult)) : list event :=
  if invalid_mobile_number mobileNumber then []
  else
    Execute (SelectTestResult mobileNumber)
      :: match found with
         | None =>
             [ConsoleError match r with
                           | api_track_search => "Track search error:"
                           | api_search_result => "Database query error:"
                           end]
         | Some [] => []
         | Some (row :: _) =>
             Execute (UpdateName (tr_name row) mobileNumber)
               :: (if storage_down e (UpdateName (tr_name row) mobileNumber)
                   then [ConsoleError "Name update error:"] else [])
         end.

Definition after_reconciliation (e : Env) (mobileNumber : jsval)
    (found : option (list TestResult)) (d : Database) : Database :=
  if invalid_mobile_number mobileNumber then d
  else
    match found with
    | Some (row :: _) =>
        if storage_down e (UpdateName (tr_name row) mobileNumber) then d
        else from_option
               (λ k, update_name (CURRENT_TIMESTAMP e) (tr_name row) k d) d
               (as_varchar mobileNumber)
    | _ => d
    end.

(** The admin response as a function of the secret, the configuration and
    the table. *)
Definition admin_response (r : route) (e : Env) (secret : queryval)
    (d : Database) : Response :=
  if negb (strict_eq secret (ADMIN_SECRET e)) then
    {| status := 401; body := BError "Unauthorized" |}
  else if storage_down e SelectSearches then
    {| status := 500;
       body := BError match r with
                      | api_track_search => "Internal server error"
                      | api_search_result => "Database temporarily unavailable"
                      end |}
  else
    {| status := 200;
       body := BSearches (select_searches d)
                 (Z.of_nat (length (select_searches d))) |}.

(** The spec's notion of a valid [mobileNumber]: a string of exactly ten
    decimal digits; a missing field or any other shape is invalid. *)
Definition spec_valid (mobileNumber : jsval) : bool :=
  match mobileNumber with
  | JStr s => ten_digit_string s
  | _ => false
  end.

(** The status of the response, [None] while nothing was sent. *)
Definition response_status (w : World) : option Z := status <$> res w.

(** *** Sample surroundings

    A database holding the result of Asha, a configured process and a
    storage layer that runs every statement; used to evaluate the handlers
    on concrete requests. *)

Definition asha : TestResult :=
  {| tr_id := 1; tr_name := "Asha"; phone := "9876543210";
     current_group := Some "A"; exam_date := Some "2025-10-30";
     result := Some "Selected" |}.

Definition sample_db : Database :=
  {| mobile_searches := ∅; test_results := [asha]; auto_increment := 1 |}.

Definition sample_env : Env :=
  {| ADMIN_SECRET := Some "s3cret";
     WHATSAPP_LINK := Some "https://chat.whatsapp.com/sks";
     storage_down := λ _, false;
     CURRENT_TIMESTAMP := 1000 |}.

(** [sample_env] with the tracking statement failing. *)
Definition tracking_down_env : Env :=
  {| ADMIN_SECRET := ADMIN_SECRET sample_env;
     WHATSAPP_LINK := WHATSAPP_LINK sample_env;
     storage_down := is_InsertSearch;
     CURRENT_TIMESTAMP := 1000 |}.

(** [sample_env] with the lookup failing. *)
Definition lookup_down_env : Env :=
  {| ADMIN_SECRET := ADMIN_SECRET sample_env;
     WHATSAPP_LINK := WHATSAPP_LINK sample_env;
     storage_down := is_SelectTestResult;
     CURRENT_TIMESTAMP := 1000 |}.

(** [sample_env] started without [ADMIN_SECRET] and [WHATSAPP_LINK]. *)
Definition unconfigured_env : Env :=
  {| ADMIN_SECRET := None;
     WHATSAPP_LINK := None;
     storage_down := λ _, false;
     CURRENT_TIMESTAMP := 1000 |}.

(** [POST] with the body [{ mobileNumber: v }]. *)
Definition post (v : jsval) : Request :=
  {| method := "POST"; body_mobileNumber := v; query_secret := QUndefined |}.

(** [GET /api/admin/searches] with the given [secret]. *)
Definition get_admin (secret : queryval) : Request :=
  {| method := "GET"; body_mobileNumber := JUndefined; query_secret := secret |}.

(** ** The earlier variants of [/api/track-search]

    Before the lookup of test results was added, the handler validated the
    number first and answered with the tracked record itself: once on
    MySQL (an upsert, then a query for the row) and once on PostgreSQL (one
    upsert [RETURNING *]).  Neither isolates the tracking write. *)

Module Legacy.

Inductive statement : Type :=
  | Upsert (mobile_number : jsval)
      (* INSERT INTO mobile_searches (mobile_number, click_count)
         VALUES (?, 1)
         ON DUPLICATE KEY UPDATE click_count = click_count + 1,
                                 last_updated = CURRENT_TIMESTAMP *)
  | SelectSearch (mobile_number : jsval)
      (* SELECT * FROM mobile_searches WHERE mobile_number = ? *)
  | UpsertReturning (mobile_number : jsval).
      (* INSERT INTO mobile_searches (mobile_number, click_count, last_updated)
         VALUES ($1, 1, CURRENT_TIMESTAMP)
         ON CONFLICT (mobile_number) DO UPDATE SET
           click_count = mobile_searches.click_count + 1,
           last_updated = CURRENT_TIMESTAMP
         RETURNING * *)

(** [{ error }] or [{ success: true, data }]; [data] is [result[0]], which
    is missing when the result has no row. *)
Inductive Body : Type :=
  | BError (error : string)
  | BTracked (data : option SearchRecord).

Record Response : Type := { status : Z; body : Body }.

Inductive error : Type :=
  | StorageError (q : statement)
  | HeadersAlreadySent.

Inductive event : Type :=
  | Execute (q : statement)
  | ConsoleError (tag : string)
  | Respond (r : Response).

Record Env : Type := {
  storage_down : statement → bool;
  CURRENT_TIMESTAMP : Z
}.

Record World : Type := {
  db : Database;
  res : option Response;
  trace : list event
}.

Inductive completion (A : Type) : Type :=
  | Normal (a : A)
  | Thrown (err : error).
Arguments Normal {A} a.
Arguments Thrown {A} err.

Definition M (A : Type) : Type := Env → World → completion A * World.

Definition ret {A} (a : A) : M A := λ _ w, (Normal a, w).

Definition bind {A B} (m : M A) (k : A → M B) : M B := λ e w,
  match m e w with
  | (Normal a, w') => k a e w'
  | (Thrown err, w') => (Thrown err, w')
  end.

Definition try_catch {A} (m : M A) (h : error → M A) : M A := λ e w,
  match m e w with
  | (Normal a, w') => (Normal a, w')
  | (Thrown err, w') => h err e w'
  end.

Definition emit (ev : event) (w : World) : World :=
  {| db := db w; res := res w; trace := trace w ++ [ev] |}.

Definition console_error (tag : string) (err : error) : M unit := λ _ w,
  (Normal tt, emit (ConsoleError tag) w).

(** The row of [k], as [SELECT *] and [RETURNING *] give it. *)
Definition select_search (k : string) (d : Database) : list SearchRecord :=
  match mobile_searches d !! k with
  | Some cols => [{| mobile_number := k; columns := cols |}]
  | None => []
  end.

(** One statement, run to completion, with the rows it returns (none for
    the plain upsert). *)
Definition run (now : Z) (q : statement) (d : Database)
  : option (list SearchRecord * Database) :=
  match q with
  | Upsert p => k ← as_varchar p; Some ([], upsert now k d)
  | SelectSearch p => k ← as_varchar p; Some (select_search k d, d)
  | UpsertReturning p =>
      k ← as_varchar p;
      let d' := upsert now k d in Some (select_search k d', d')
  end.

(** [await pool.execute(q)], [await pool.query(q)] *)
Definition pool_execute (q : statement) : M (list SearchRecord) := λ e w,
  let w := emit (Execute q) w in
  if storage_down e q then (Thrown (StorageError q), w)
  else
    match run (CURRENT_TIMESTAMP e) q (db w) with
    | Some (rows, d) =>
        (Normal rows, {| db := d; res := res w; trace := trace w |})
    | None => (Thrown (StorageError q), w)
    end.

Definition res_status_json (code : Z) (b : Body) : M unit := λ _ w,
  match res w with
  | Some _ => (Thrown HeadersAlreadySent, w)
  | None =>
      let r := {| status := code; body := b |} in
      (Normal tt,
       {| db := db w; res := Some r; trace := trace w ++ [Respond r] |})
  end.

Definition res_json (b : Body) : M unit := res_status_json 200 b.

End Legacy.

Declare Scope legacy_scope.
Delimit Scope legacy_scope with legacy.
Notation "'let*' x ':=' m 'in' k" := (Legacy.bind m (λ x, k))
  (at level 10, x name, m at level 100, k at level 200) : legacy_scope.
Notation "m1 '>>' m2" := (Legacy.bind m1 (λ _, m2))
  (at level 100, m2 at level 200, right associativity) : legacy_scope.

Module LegacyTrackSearch.

(** [app.post('/api/track-search', ...)] on MySQL, before test results. *)
Definition track_search_mysql (req : Request) : Legacy.M unit :=
  (Legacy.try_catch
     (let mobileNumber := body_mobileNumber req in
      if invalid_mobile_number mobileNumber then
        Legacy.res_status_json 400 (Legacy.BError "Invalid mobile number")
      else
        let* _ := Legacy.pool_execute (Legacy.Upsert mobileNumber) in
        let* result := Legacy.pool_execute (Legacy.SelectSearch mobileNumber) in
        Legacy.res_json (Legacy.BTracked (head result)))
     (λ error,
        Legacy.console_error "Track search error:" error >>
        Legacy.res_status_json 500 (Legacy.BError "Internal server error"))
  )%legacy.

(** [app.post('/api/track-search', ...)] on PostgreSQL. *)
Definition track_search_pg (req : Request) : Legacy.M unit :=
  (Legacy.try_catch
     (let mobileNumber := body_mobileNumber req in
      if invalid_mobile_number mobileNumber then
        Legacy.res_status_json 400 (Legacy.BError "Invalid mobile number")
      else
        let* result :=
          Legacy.pool_execute (Legacy.UpsertReturning mobileNumber) in
        Legacy.res_json (Legacy.BTracked (head result)))
     (λ error,
        Legacy.console_error "Track search error:" error >>
        Legacy.res_status_json 500 (Legacy.BError "Internal server error"))
  )%legacy.

Inductive driver : Type := mysql | pg.

Definition track_search (v : driver) : Request → Legacy.M unit :=
  match v with
  | mysql => track_search_mysql
  | pg => track_search_pg
  end.

(** The statement that tracks a number, by driver. *)
Definition tracking_statement (v : driver) (p : jsval) : Legacy.statement :=
  match v with
  | mysql => Legacy.Upsert p
  | pg => Legacy.UpsertReturning p
  end.

(** A handler run from a fresh [res] and an empty trace. *)
Definition run_handler (v : driver) (e : Legacy.Env) (req : Request)
    (d : Database) : Legacy.completion unit * Legacy.World :=
  track_search v req e {| Legacy.db := d; Legacy.res := None;
                          Legacy.trace := [] |}.

Definition served (v : driver) (e : Legacy.Env) (req : Request)
    (d : Database) : Legacy.World :=
  (run_handler v e req d).2.

(** A storage layer that runs every statement, at time [now]. *)
Definition storage_up (now : Z) : Legacy.Env :=
  {| Legacy.storage_down := λ _, false; Legacy.CURRENT_TIMESTAMP := now |}.

(** A storage layer that fails the tracking upsert only. *)
Definition upsert_down (now : Z) : Legacy.Env :=
  {| Legacy.storage_down :=
       λ q, match q with Legacy.SelectSearch _ => false | _ => true end;
     Legacy.CURRENT_TIMESTAMP := now |}.

(** A storage layer that fails the query for the row only. *)
Definition select_down (now : Z) : Legacy.Env :=
  {| Legacy.storage_down :=
       λ q, match q with Legacy.SelectSearch _ => true | _ => false end;
     Legacy.CURRENT_TIMESTAMP := now |}.

End LegacyTrackSearch.

(** ** [database.js]: creating the tables at start-up *)

Module InitDatabase.

Inductive ddl : Type :=
  | Select1                 (* SELECT 1 *)
  | CreateMobileSearches    (* CREATE TABLE IF NOT EXISTS mobile_searches *)
  | CreateTestResults.      (* CREATE TABLE IF NOT EXISTS test_results *)

(** Which of the two tables exist. *)
Record Schema : Type := {
  has_mobile_searches : bool;
  has_test_results : bool
}.

Inductive event : Type :=
  | Execute (attempt : nat) (q : ddl)   (* pool.execute, in a given attempt *)
  | ConsoleLog (message : string)
  | ConsoleError (message : string)
  | Sleep (ms : Z)                      (* await setTimeout *)
  | Exit (code : Z).                    (* process.exit *)

Record World : Type := { schema : Schema; trace : list event }.

Definition emit (ev : event) (w : World) : World :=
  {| schema := schema w; trace := trace w ++ [ev] |}.

(** [CREATE TABLE IF NOT EXISTS] adds the table or leaves it. *)
Definition apply_ddl (q : ddl) (s : Schema) : Schema :=
  match q with
  | Select1 => s
  | CreateMobileSearches =>
      {| has_mobile_searches := true; has_test_results := has_test_results s |}
  | CreateTestResults =>
      {| has_mobile_searches := has_mobile_searches s; has_test_results := true |}
  end.

(** The statements of a [try] block, in order: [true] when all ran,
    [false] at the first one the storage layer fails ([down], by attempt
    and statement). *)
Fixpoint execute_all (down : nat → ddl → bool) (attempt : nat)
    (qs : list ddl) (w : World) : bool * World :=
  match qs with
  | [] => (true, w)
  | q :: qs' =>
      let w1 := emit (Execute attempt q) w in
      if down attempt q then (false, w1)
      else execute_all down attempt qs'
             {| schema := apply_ddl q (schema w1); trace := trace w1 |}
  end.

(** The loop [while (retries > 0)] of [src/database.js]; [attempt] counts
    the passes, for [down]. *)
Fixpoint init_loop (down : nat → ddl → bool) (retries attempt : nat)
    (w : World) : World :=
  match retries with
  | O => w
  | S retries' =>
      match execute_all down attempt
              [Select1; CreateMobileSearches; CreateTestResults] w with
      | (true, w1) => emit (ConsoleLog "Database initialized successfully") w1
      | (false, w1) =>
          let w2 := emit (ConsoleError "Database initialization error:") w1 in
          (* retries-- *)
          match retries' with
          | O =>
              emit (ConsoleError
                      "Failed to initialize database after 5 attempts, continuing without DB")
                w2
          | S _ => init_loop down retries' (S attempt) (emit (Sleep 10000) w2)
          end
      end
  end.

(** [initDatabase] of [src/database.js]: [let retries = 5]. *)
Definition initDatabase (down : nat → ddl → bool) (s : Schema) : World :=
  init_loop down 5 0 {| schema := s; trace := [] |}.



(** Some statement of the attempt fails. *)
Definition attempt_fails (down : nat → ddl → bool) (attempt : nat) : bool :=
  down attempt Select1 || down attempt CreateMobileSearches
  || down attempt CreateTestResults.


(** The attempts begun in a trace: one per first statement sent. *)
Definition attempts (first : ddl) (t : list event) : list nat :=
  omap (λ ev, match ev, first with
              | Execute i Select1, Select1 => Some i
              | Execute i CreateMobileSearches, CreateMobileSearches => Some i
              | _, _ => None
              end) t.

(** The waits of a trace, in milliseconds. *)
Definition sleeps (t : list event) : list Z :=
  omap (λ ev, match ev with Sleep ms => Some ms | _ => None end) t.

(** The exit codes of a trace. *)
Definition exits (t : list event) : list Z :=
  omap (λ ev, match ev with Exit c => Some c | _ => None end) t.

(** The storage layer fails every statement of the first [n] attempts and
    none afterwards. *)
Definition down_for (n : nat) : nat → ddl → bool := λ attempt _,
  bool_decide (attempt < n)%nat.

Definition no_tables : Schema :=
  {| has_mobile_searches := false; has_test_results := false |}.

End InitDatabase.

(** *** What else a run shows *)

(** The responses sent in a trace, in order. *)
Definition responses (t : list event) : list Response :=
  omap (λ ev, match ev with Respond r => Some r | _ => None end) t.

(** The statements sent to the storage layer in a trace, in order. *)
Definition statements (t : list event) : list statement :=
  omap (λ ev, match ev with Execute q => Some q | _ => None end) t.

(** [id] is [AUTO_INCREMENT PRIMARY KEY]: the ids handed out so far lie
    below the counter, and no two records share one. *)
Definition ids_consistent (d : Database) : Prop :=
  (∀ k row, mobile_searches d !! k = Some row → sr_id row < auto_increment d)
  ∧ (∀ k1 k2 row1 row2,
       mobile_searches d !! k1 = Some row1 →
       mobile_searches d !! k2 = Some row2 →
       sr_id row1 = sr_id row2 → k1 = k2).

(** [e], with the clock at [now]. *)
Definition at_time (now : Z) (e : Env) : Env :=
  {| ADMIN_SECRET := ADMIN_SECRET e;
     WHATSAPP_LINK := WHATSAPP_LINK e;
     storage_down := storage_down e;
     CURRENT_TIMESTAMP := now |}.

(** [sample_env] with the name update failing. *)
Definition update_down_env : Env :=
  {| ADMIN_SECRET := ADMIN_SECRET sample_env;
     WHATSAPP_LINK := WHATSAPP_LINK sample_env;
     storage_down := λ q, match q with UpdateName _ _ => true | _ => false end;
     CURRENT_TIMESTAMP := 1000 |}.

(** [sample_env] with the storage layer down for every statement. *)
Definition storage_down_env : Env :=
  {| ADMIN_SECRET := ADMIN_SECRET sample_env;
     WHATSAPP_LINK := WHATSAPP_LINK sample_env;
     storage_down := λ _, true;
     CURRENT_TIMESTAMP := 1000 |}.

(** * Properties *)

Arguments invalid_mobile_number : simpl never.
Arguments truthy : simpl never.
Arguments as_varchar : simpl never.
Arguments upsert : simpl never.
Arguments update_name : simpl never.
Arguments select_test_result : simpl never.
Arguments select_searches : simpl never.

(** ** The validation gate *)

Lemma digits_then_end_length n s :
  digits_then_end n s = true → String.length s = n.
Proof.
  revert s; induction n as [|n IH]; intros [|c s]; simpl; try discriminate.
  - done.
  - intros [_ H]%andb_true_iff. by rewrite (IH s H).
Qed.

Lemma falsy_not_ten_digits v :
  truthy v = false → re_10_digits_test v = false.
Proof.
  destruct v as [| |[]|n|s]; try done.
  - unfold truthy. intros ->%negb_false_iff%Z.eqb_eq. reflexivity.
  - unfold truthy. intros ->%negb_false_iff%String.eqb_eq. reflexivity.
Qed.

Lemma invalid_iff_not_ten_digits v :
  invalid_mobile_number v = negb (ten_digit_string (ToString v)).
Proof.
  unfold invalid_mobile_number. destruct (truthy v) eqn:Ht; [done|].
  apply falsy_not_ten_digits in Ht. unfold re_10_digits_test in Ht.
  unfold ten_digit_string. by rewrite Ht.
Qed.

Lemma invalid_false_truthy mn :
  invalid_mobile_number mn = false → truthy mn = true.
Proof.
  unfold invalid_mobile_number. intros H.
  apply orb_false_elim in H as [H _]. by apply negb_false_iff in H.
Qed.

Lemma valid_string s :
  ten_digit_string s = true →
  invalid_mobile_number (JStr s) = false ∧ truthy (JStr s) = true.
Proof.
  intros H. assert (invalid_mobile_number (JStr s) = false) as Hi.
  { rewrite invalid_iff_not_ten_digits. simpl. by rewrite H. }
  split; [done|]. by apply invalid_false_truthy.
Qed.

Lemma truthy_as_varchar mn : truthy mn = true → ∃ k, as_varchar mn = Some k.
Proof. destruct mn; try discriminate; intros _; eexists; reflexivity. Qed.

Lemma tracking_parameter_binds r req p :
  tracking_parameter r req = Some p → ∃ k, as_varchar p = Some k.
Proof.
  destruct r; simpl.
  - intros [= <-]. unfold or_else.
    destruct (truthy (body_mobileNumber req)) eqn:Ht.
    + by apply truthy_as_varchar.
    + by exists "".
  - destruct (String.eqb _ _ && truthy _) eqn:Hg; [|done].
    intros [= <-]. apply andb_true_iff in Hg as [_ Ht].
    by apply truthy_as_varchar.
Qed.

(** ** The statements *)

Lemma test_results_upsert now k d :
  test_results (upsert now k d) = test_results d.
Proof. unfold upsert. by destruct (mobile_searches d !! k). Qed.

Lemma test_results_update_name now n k d :
  test_results (update_name now n k d) = test_results d.
Proof.
  unfold update_name. destruct (mobile_searches d !! k); [|done].
  by case_decide.
Qed.

Lemma select_test_result_upsert now k k' d :
  select_test_result k (upsert now k' d) = select_test_result k d.
Proof. unfold select_test_result. by rewrite test_results_upsert. Qed.

Lemma clicks_upsert now k k' d :
  clicks k' (upsert now k d) = clicks k' d + (if decide (k = k') then 1 else 0).
Proof.
  unfold clicks, upsert.
  destruct (mobile_searches d !! k) as [row|] eqn:Hk; simpl;
    case_decide as Hkk; subst;
    rewrite ?lookup_insert_eq, ?lookup_insert_ne by done; simpl;
    rewrite ?Hk; simpl; lia.
Qed.

Lemma clicks_update_name now n k k' d :
  clicks k' (update_name now n k d) = clicks k' d.
Proof.
  unfold clicks, update_name.
  destruct (mobile_searches d !! k) as [row|] eqn:Hk; [|done].
  case_decide; [done|]. simpl.
  destruct (decide (k = k')) as [->|Hne].
  - by rewrite lookup_insert_eq, Hk.
  - by rewrite lookup_insert_ne.
Qed.

(** The row of [k] after the upsert: created with [click_count = 1], or
    incremented, and stamped with the current time either way. *)
Lemma upsert_row now k d :
  ∃ row, mobile_searches (upsert now k d) !! k = Some row
         ∧ last_updated row = now
         ∧ click_count row
           = match mobile_searches d !! k with
             | None => 1
             | Some old => click_count old + 1
             end.
Proof.
  unfold upsert. destruct (mobile_searches d !! k) as [old|]; simpl;
    rewrite lookup_insert_eq; eauto.
Qed.

Lemma update_name_row now n k k' d row :
  mobile_searches d !! k' = Some row →
  ∃ row', mobile_searches (update_name now n k d) !! k' = Some row'
          ∧ click_count row' = click_count row
          ∧ (last_updated row' = last_updated row ∨ last_updated row' = now).
Proof.
  intros Hrow. unfold update_name.
  destruct (mobile_searches d !! k) as [old|] eqn:Hk; [|eauto].
  case_decide; [eauto|]. simpl.
  destruct (decide (k = k')) as [->|Hne].
  - rewrite lookup_insert_eq. simplify_eq. eauto.
  - rewrite lookup_insert_ne by done. eauto.
Qed.

(** ** The handlers, run *)

Ltac unfold_handler :=
  unfold serve, handler, admin_handler,
    TrackSearch.track_search, SearchResult.search_result,
    TrackSearch.admin_searches, SearchResult.admin_searches,
    try_catch, bind, pool_execute, ret, console_error, res_status_json,
    res_json, headersSent, process_env, emit, run.

Ltac split_run :=
  repeat (simpl; rewrite ?select_test_result_upsert;
    match goal with
    | H : invalid_mobile_number ?mn = _
      |- context [invalid_mobile_number ?mn] => rewrite H
    | H : as_varchar ?p = _ |- context [as_varchar ?p] => rewrite H
    | H : truthy ?p = _ |- context [truthy ?p] => rewrite H
    | |- context [storage_down ?e ?q] => destruct (storage_down e q) eqn:?
    | |- context [match select_test_result ?k ?d with _ => _ end] =>
        destruct (select_test_result k d) eqn:?
    end); simpl.

(** Each handler tracks, looks up and reconciles as the phase functions
    say, sends exactly one response, last, and lets no exception escape. *)
Lemma handler_completes r e req d :
  let mn := body_mobileNumber req in
  let found := lookup_outcome e mn d in
  let response := expected_response r (WHATSAPP_LINK e) mn found in
  handler r req e {| db := d; res := None; trace := [] |}
  = (Normal tt,
     {| db := after_reconciliation e mn found (after_tracking r e req d);
        res := Some response;
        trace := tracking_events r e req ++ lookup_events r e mn found
                 ++ [Respond response] |}).
Proof.
  destruct req as [m mn q]; simpl.
  unfold after_reconciliation, after_tracking, tracking_events, lookup_events,
    expected_response, lookup_outcome, tracking_parameter; simpl.
  destruct (invalid_mobile_number mn) eqn:Hinv.
  - destruct r; unfold_handler; simpl.
    + unfold or_else. destruct (truthy mn) eqn:Ht.
      * destruct (truthy_as_varchar mn Ht) as [k Hk]; by split_run.
      * by split_run.
    + destruct (String.eqb m "POST" && truthy mn) eqn:Hg; [|by split_run].
      apply andb_true_iff in Hg as [_ Ht].
      destruct (truthy_as_varchar mn Ht) as [k Hk]; by split_run.
  - pose proof (invalid_false_truthy mn Hinv) as Ht.
    destruct (truthy_as_varchar mn Ht) as [k Hk].
    destruct r; unfold_handler; simpl.
    + unfold or_else; rewrite Ht, Hk; by split_run.
    + rewrite Ht, Hk, andb_true_r.
      destruct (String.eqb m "POST"); by split_run.
Qed.

Lemma handler_run r e req d :
  let mn := body_mobileNumber req in
  let found := lookup_outcome e mn d in
  let response := expected_response r (WHATSAPP_LINK e) mn found in
  serve (handler r) e req d
  = {| db := after_reconciliation e mn found (after_tracking r e req d);
       res := Some response;
       trace := tracking_events r e req ++ lookup_events r e mn found
                ++ [Respond response] |}.
Proof. unfold serve. by rewrite handler_completes. Qed.

Lemma admin_run r e req d :
  let response := admin_response r e (query_secret req) d in
  serve (admin_handler r) e req d
  = {| db := d;
       res := Some response;
       trace := (if strict_eq (query_secret req) (ADMIN_SECRET e)
                 then Execute SelectSearches
                        :: (if storage_down e SelectSearches
                            then [ConsoleError
                                    match r with
                                    | api_track_search => "Admin searches error:"
                                    | api_search_result => "Admin query error:"
                                    end]
                            else [])
                 else [])
                ++ [Respond response] |}.
Proof.
  unfold admin_response.
  destruct r; unfold_handler; simpl;
    destruct (strict_eq _ _); simpl; try done;
    by destruct (storage_down e SelectSearches).
Qed.

Lemma response_eq r e req d :
  res (serve (handler r) e req d)
  = Some (expected_response r (WHATSAPP_LINK e) (body_mobileNumber req)
            (lookup_outcome e (body_mobileNumber req) d)).
Proof. by rewrite handler_run. Qed.

Lemma upserts_app t1 t2 : upserts (t1 ++ t2) = upserts t1 ++ upserts t2.
Proof. apply omap_app. Qed.

Lemma lookups_app t1 t2 : lookups (t1 ++ t2) = lookups t1 ++ lookups t2.
Proof. apply omap_app. Qed.

Lemma upserts_lookup_events r e mn found :
  upserts (lookup_events r e mn found) = [].
Proof.
  unfold lookup_events. destruct (invalid_mobile_number mn); [done|].
  destruct found as [[|row rows]|]; try done.
  simpl. by destruct (storage_down _ _).
Qed.

Lemma lookups_tracking_events r e req : lookups (tracking_events r e req) = [].
Proof.
  unfold tracking_events. destruct (tracking_parameter r req); [|done].
  simpl. by destruct (storage_down _ _).
Qed.

Lemma lookups_lookup_events r e mn found :
  lookups (lookup_events r e mn found)
  = if invalid_mobile_number mn then [] else [mn].
Proof.
  unfold lookup_events. destruct (invalid_mobile_number mn); [done|].
  destruct found as [[|row rows]|]; try done.
  simpl. by destruct (storage_down _ _).
Qed.

(** The test_results queries of a run: one, for a number that passes the
    gate; none otherwise. *)
Lemma lookups_trace r e req d :
  lookups (trace (serve (handler r) e req d))
  = if invalid_mobile_number (body_mobileNumber req) then []
    else [body_mobileNumber req].
Proof.
  rewrite handler_run. simpl.
  rewrite !lookups_app, lookups_tracking_events, lookups_lookup_events.
  simpl. by rewrite app_nil_r.
Qed.

(** The tracking statements of a run. *)
Lemma upserts_trace r e req d :
  upserts (trace (serve (handler r) e req d))
  = option_list (tracking_parameter r req).
Proof.
  rewrite handler_run. simpl.
  rewrite !upserts_app, upserts_lookup_events. simpl. rewrite app_nil_r.
  unfold tracking_events. destruct (tracking_parameter r req); [|done].
  simpl. by destruct (storage_down _ _).
Qed.

(** No handler writes to [test_results]. *)
Lemma test_results_serve r e req d :
  test_results (db (serve (handler r) e req d)) = test_results d.
Proof.
  rewrite handler_run. simpl.
  assert (test_results (after_tracking r e req d) = test_results d) as Ht.
  { unfold after_tracking. destruct (tracking_parameter r req); [|done].
    destruct (storage_down _ _); [done|].
    destruct (as_varchar _); simpl; [apply test_results_upsert|done]. }
  unfold after_reconciliation.
  destruct (invalid_mobile_number _); [done|].
  destruct (lookup_outcome _ _ _) as [[|row rows]|]; try done.
  destruct (storage_down _ _); [done|].
  destruct (as_varchar _); simpl; [|done].
  by rewrite test_results_update_name.
Qed.

(** A request adds one click under its tracking key when the storage
    layer runs the statement, and changes no other count. *)
Lemma clicks_serve r e req d k :
  clicks k (db (serve (handler r) e req d))
  = clicks k d
    + match tracking_parameter r req with
      | Some p =>
          if storage_down e (InsertSearch p) then 0
          else if decide (as_varchar p = Some k) then 1 else 0
      | None => 0
      end.
Proof.
  rewrite handler_run. simpl.
  assert (∀ d', clicks k (after_reconciliation e (body_mobileNumber req)
                   (lookup_outcome e (body_mobileNumber req) d) d')
                = clicks k d') as ->.
  { intros d'. unfold after_reconciliation.
    destruct (invalid_mobile_number _); [done|].
    destruct (lookup_outcome _ _ _) as [[|row rows]|]; try done.
    destruct (storage_down _ _); [done|].
    destruct (as_varchar _); simpl; [|done].
    apply clicks_update_name. }
  unfold after_tracking.
  destruct (tracking_parameter r req) as [p|] eqn:Hp; [|lia].
  destruct (storage_down _ _); [lia|].
  destruct (tracking_parameter_binds _ _ _ Hp) as [k' ->]. simpl.
  rewrite clicks_upsert. repeat case_decide; naive_solver.
Qed.

Lemma tracked_requests_cons r k e req reqs :
  tracked_requests r k ((e, req) :: reqs)
  = (if decide (tracking_key r req = Some k) then 1 else 0)
    + tracked_requests r k reqs.
Proof.
  unfold tracked_requests. rewrite filter_cons. simpl.
  case_decide; simpl; lia.
Qed.

(** Over a batch whose tracking statements all run, the count of a key
    grows by the number of requests tracked under it. *)
Lemma clicks_serve_all r reqs d k :
  tracking_up r reqs →
  clicks k (serve_all (handler r) reqs d)
  = clicks k d + tracked_requests r k reqs.
Proof.
  unfold tracking_up. intros Hup. revert d.
  induction Hup as [|[e req] reqs Hreq _ IH]; intros d; simpl.
  - unfold tracked_requests. simpl. lia.
  - rewrite IH, clicks_serve, tracked_requests_cons. simpl in Hreq.
    unfold tracking_key.
    destruct (tracking_parameter r req) as [p|]; simpl.
    + rewrite (Hreq p eq_refl). repeat case_decide; naive_solver lia.
    + repeat case_decide; try done; lia.
Qed.

(** The record a tracked request leaves behind. *)
Lemma tracked_row r e req d p :
  tracking_parameter r req = Some p →
  storage_down e (InsertSearch p) = false →
  ∃ key row,
    as_varchar p = Some key
    ∧ mobile_searches (db (serve (handler r) e req d)) !! key = Some row
    ∧ last_updated row = CURRENT_TIMESTAMP e
    ∧ click_count row = match mobile_searches d !! key with
                        | None => 1
                        | Some old => click_count old + 1
                        end.
Proof.
  intros Hp Hup. destruct (tracking_parameter_binds _ _ _ Hp) as [key Hkey].
  exists key. rewrite handler_run. simpl.
  unfold after_tracking. rewrite Hp, Hup, Hkey. simpl.
  destruct (upsert_row (CURRENT_TIMESTAMP e) key d) as (row & Hrow & Ht & Hc).
  assert (∀ n k, ∃ row',
            mobile_searches
              (update_name (CURRENT_TIMESTAMP e) n k
                 (upsert (CURRENT_TIMESTAMP e) key d)) !! key = Some row'
            ∧ last_updated row' = CURRENT_TIMESTAMP e
            ∧ click_count row' = click_count row) as Hupd.
  { intros n k.
    destruct (update_name_row (CURRENT_TIMESTAMP e) n k key _ _ Hrow)
      as (row' & ? & ? & [?|?]); exists row'; split_and!; congruence. }
  unfold after_reconciliation.
  destruct (invalid_mobile_number _); [by eauto|].
  destruct (lookup_outcome _ _ _) as [[|t rows]|]; try by eauto.
  destruct (storage_down e (UpdateName _ _)); [by eauto|].
  destruct (as_varchar (body_mobileNumber req)) as [k|]; simpl; [|by eauto].
  destruct (Hupd (tr_name t) k) as (row' & ? & ? & ?).
  exists row'. split_and!; try done. congruence.
Qed.

(** * The claims *)

(** C1, as corrected.  On [/api/track-search] every request, valid or not,
    and on [/api/search-result] every POST request whose [mobileNumber] is
    truthy, leads to exactly one tracking upsert, sent first, before the
    response is decided; run by the storage layer, it creates the record of
    the key with [click_count = 1] or adds one to its [click_count], and
    sets [last_updated] to the current time.  Over any batch of requests
    whose upserts all run, the [click_count] of every key grows by the
    number of requests tracked under that key, valid or not. *)
Theorem tracking_upsert_first r e req d p reqs k :
  tracking_parameter r req = Some p →
  tracking_up r reqs →
  let w := serve (handler r) e req d in
  (∃ rest response,
     trace w = Execute (InsertSearch p) :: rest ++ [Respond response]
     ∧ upserts rest = [])
  ∧ (storage_down e (InsertSearch p) = false →
     ∃ key row,
       as_varchar p = Some key
       ∧ mobile_searches (db w) !! key = Some row
       ∧ last_updated row = CURRENT_TIMESTAMP e
       ∧ click_count row = match mobile_searches d !! key with
                           | None => 1
                           | Some old => click_count old + 1
                           end)
  ∧ clicks k (serve_all (handler r) reqs d)
    = clicks k d + tracked_requests r k reqs.
Proof.
  intros Hp Hup w. split_and!.
  - subst w. rewrite handler_run. simpl.
    unfold tracking_events. rewrite Hp.
    eexists (_ ++ _), _. split.
    + rewrite <- app_assoc. simpl. reflexivity.
    + rewrite upserts_app, upserts_lookup_events, app_nil_r.
      by destruct (storage_down _ _).
  - intros Hrun. by apply tracked_row.
  - by apply clicks_serve_all.
Qed.

(** What [tracking_parameter] stands for, route by route. *)
Lemma tracking_parameter_spec r req p :
  tracking_parameter r req = Some p ↔
  (r = api_track_search ∧ p = or_else (body_mobileNumber req) (JStr ""))
  ∨ (r = api_search_result ∧ method req = "POST"
     ∧ truthy (body_mobileNumber req) = true ∧ p = body_mobileNumber req).
Proof.
  destruct r; simpl; split.
  - intros [= <-]. by left.
  - intros [[_ ->]|[? _]]; [done|discriminate].
  - destruct (String.eqb_spec (method req) "POST") as [Hm|Hm]; simpl; [|done].
    destruct (truthy _) eqn:Ht; [|done]. intros [= <-]. by right.
  - intros [[? _]|(_ & Hm & Ht & ->)]; [discriminate|].
    by rewrite Hm, Ht.
Qed.

Lemma tracking_upsert_first_witness :
  let w := serve (handler api_track_search) sample_env (post (JStr "abc"))
             sample_db in
  (∃ rest response,
     trace w = Execute (InsertSearch (JStr "abc")) :: rest ++ [Respond response]
     ∧ upserts rest = [])
  ∧ (storage_down sample_env (InsertSearch (JStr "abc")) = false →
     ∃ key row,
       as_varchar (JStr "abc") = Some key
       ∧ mobile_searches (db w) !! key = Some row
       ∧ last_updated row = CURRENT_TIMESTAMP sample_env
       ∧ click_count row = match mobile_searches sample_db !! key with
                           | None => 1
                           | Some old => click_count old + 1
                           end)
  ∧ clicks "abc"
      (serve_all (handler api_track_search)
         [(sample_env, post (JStr "abc")); (sample_env, post JNull);
          (sample_env, post (JStr "abc"))] sample_db)
    = clicks "abc" sample_db
      + tracked_requests api_track_search "abc"
          [(sample_env, post (JStr "abc")); (sample_env, post JNull);
           (sample_env, post (JStr "abc"))].
Proof.
  apply (tracking_upsert_first api_track_search sample_env (post (JStr "abc"))
           sample_db (JStr "abc")).
  - reflexivity.
  - unfold tracking_up. repeat constructor.
Defined.

(** C1 fails on [/api/search-result]: a POST whose [mobileNumber] is the
    empty string is answered 400 without any upsert, and no record is
    created or counted. *)
Lemma search_result_skips_falsy_counterexample :
  let w := serve (handler api_search_result) sample_env (post (JStr ""))
             sample_db in
  upserts (trace w) = []
  ∧ mobile_searches (db w) = mobile_searches sample_db
  ∧ response_status w = Some 400.
Proof. vm_compute. done. Qed.

(** Outside the numbers, the spec's notion of an invalid [mobileNumber]
    and the gate of the handlers agree. *)
Lemma spec_invalid_not_ten_digits v :
  (∀ n, v ≠ JNum n) →
  spec_valid v = false → ten_digit_string (ToString v) = false.
Proof. destruct v as [| |[]|n|s]; try done. intros H. by destruct (H n). Qed.

(** C2, as corrected.  Whenever the string conversion of [mobileNumber] is
    not exactly ten decimal digits (a missing or null field, a boolean, any
    string other than ten digits, a number not written with ten digits), the
    handler answers 400 with [{ error: 'Invalid mobile number' }] and sends
    no query to [test_results]. *)
Theorem invalid_number_rejected r e req d :
  ten_digit_string (ToString (body_mobileNumber req)) = false →
  let w := serve (handler r) e req d in
  res w = Some {| status := 400; body := BError "Invalid mobile number" |}
  ∧ lookups (trace w) = [].
Proof.
  intros Hs w. subst w.
  assert (invalid_mobile_number (body_mobileNumber req) = true) as Hinv.
  { rewrite invalid_iff_not_ten_digits. by rewrite Hs. }
  split.
  - rewrite response_eq. unfold expected_response. by rewrite Hinv.
  - rewrite lookups_trace. by rewrite Hinv.
Qed.

Lemma invalid_number_rejected_witness :
  let w := serve (handler api_search_result) sample_env (post (JStr "98765"))
             sample_db in
  res w = Some {| status := 400; body := BError "Invalid mobile number" |}
  ∧ lookups (trace w) = [].
Proof.
  apply (invalid_number_rejected api_search_result sample_env
           (post (JStr "98765")) sample_db).
  reflexivity.
Defined.

(** C2 fails for a [mobileNumber] that is not a string: the number
    [1234567890] is no ten-digit string, yet [RegExp.prototype.test]
    converts it to one, the gate lets it through, and both handlers query
    [test_results] and answer 404. *)
Lemma numeric_number_accepted_counterexample :
  let req := post (JNum 1234567890) in
  let w1 := serve (handler api_track_search) sample_env req sample_db in
  let w2 := serve (handler api_search_result) sample_env req sample_db in
  spec_valid (body_mobileNumber req) = false
  ∧ response_status w1 = Some 404
  ∧ lookups (trace w1) = [JNum 1234567890]
  ∧ response_status w2 = Some 404
  ∧ lookups (trace w2) = [JNum 1234567890].
Proof. vm_compute. done. Qed.

(** The response depends on the request and its surroundings through the
    validation check, the configured link and the outcome of the lookup
    only. *)
Lemma response_determined r e e' req req' d d' :
  body_mobileNumber req' = body_mobileNumber req →
  WHATSAPP_LINK e' = WHATSAPP_LINK e →
  storage_down e' (SelectTestResult (body_mobileNumber req))
  = storage_down e (SelectTestResult (body_mobileNumber req)) →
  test_results d' = test_results d →
  res (serve (handler r) e' req' d') = res (serve (handler r) e req d).
Proof.
  intros Hmn Hlink Hdown Hrows. rewrite !response_eq, Hmn, Hlink.
  unfold lookup_outcome, select_test_result. by rewrite Hdown, Hrows.
Qed.

Lemma expected_status r link mn found :
  status (expected_response r link mn found) ∈ [400; 404; 500; 200].
Proof.
  unfold expected_response. destruct (invalid_mobile_number mn).
  - set_solver.
  - destruct found as [[|row rows]|]; set_solver.
Qed.

(** C3.  When the tracking upsert fails, the handler logs the failure
    and goes on: the response is the one of the run in which the upsert
    succeeds, and it is the same in every run that agrees on the
    [mobileNumber], the content of [test_results], the outcome of the
    lookup and the configured link, whatever happens to the tracking write
    and to [mobile_searches].  It is one of 400, 404, 500 and 200. *)
Theorem tracking_failure_isolated r e req d p e' req' d' :
  tracking_parameter r req = Some p →
  storage_down e (InsertSearch p) = true →
  body_mobileNumber req' = body_mobileNumber req →
  WHATSAPP_LINK e' = WHATSAPP_LINK e →
  storage_down e' (SelectTestResult (body_mobileNumber req))
  = storage_down e (SelectTestResult (body_mobileNumber req)) →
  test_results d' = test_results d →
  let w := serve (handler r) e req d in
  ConsoleError "Database tracking error:" ∈ trace w
  ∧ res w = res (serve (handler r) (with_tracking_up e) req d)
  ∧ res w = res (serve (handler r) e' req' d')
  ∧ ∃ response, res w = Some response
                ∧ status response ∈ [400; 404; 500; 200].
Proof.
  intros Hp Hdown Hmn Hlink Hlookup Hrows w. subst w. split_and!.
  - rewrite handler_run. simpl. unfold tracking_events. rewrite Hp, Hdown.
    set_solver.
  - symmetry. by apply response_determined.
  - symmetry. by apply response_determined.
  - rewrite response_eq. eexists; split; [done|]. apply expected_status.
Qed.

Lemma tracking_failure_isolated_witness :
  let req := post (JStr "9876543210") in
  let w := serve (handler api_track_search) tracking_down_env req sample_db in
  ConsoleError "Database tracking error:" ∈ trace w
  ∧ res w = res (serve (handler api_track_search)
                   (with_tracking_up tracking_down_env) req sample_db)
  ∧ res w = res (serve (handler api_track_search) sample_env req sample_db)
  ∧ ∃ response, res w = Some response
                ∧ status response ∈ [400; 404; 500; 200].
Proof.
  apply (tracking_failure_isolated api_track_search tracking_down_env
           (post (JStr "9876543210")) sample_db (JStr "9876543210")
           sample_env (post (JStr "9876543210")) sample_db);
    reflexivity.
Defined.

(** ** Valid numbers *)

Lemma lookup_outcome_string e s d :
  lookup_outcome e (JStr s) d
  = if storage_down e (SelectTestResult (JStr s)) then None
    else Some (select_test_result s d).
Proof. reflexivity. Qed.

Lemma tracking_parameter_valid r req s :
  method req = "POST" →
  body_mobileNumber req = JStr s →
  ten_digit_string s = true →
  tracking_parameter r req = Some (JStr s).
Proof.
  intros Hm Hmn [_ Ht]%valid_string. apply tracking_parameter_spec.
  rewrite Hmn. destruct r; [left|right]; split_and!; try done.
  unfold or_else. by rewrite Ht.
Qed.

(** The response to a valid number whose lookup runs. *)
Lemma response_valid r e req d s :
  body_mobileNumber req = JStr s →
  ten_digit_string s = true →
  res (serve (handler r) e req d)
  = Some
      match lookup_outcome e (JStr s) d with
      | None =>
          {| status := 500;
             body := BError match r with
                            | api_track_search => "Internal server error"
                            | api_search_result =>
                                "Database temporarily unavailable"
                            end |}
      | Some [] =>
          {| status := 404;
             body := BError "No test result found for this mobile number" |}
      | Some (row :: _) =>
          {| status := 200;
             body := BResult row
                       match r with
                       | api_track_search => None
                       | api_search_result =>
                           if decide (result row = Some "Selected")
                           then WHATSAPP_LINK e else None
                       end |}
      end.
Proof.
  intros Hmn [Hinv _]%valid_string. rewrite response_eq, Hmn.
  unfold expected_response. by rewrite Hinv.
Qed.

(** C4, as corrected.  On [/api/search-result], with [WHATSAPP_LINK]
    configured, a valid number whose lookup finds a row is answered 200 with
    the whole row as [data], and [whatsappLink], holding the configured
    value, is in the response exactly when the [result] of the row is
    ['Selected'].  On [/api/track-search] the same request is answered 200
    with the row and no [whatsappLink]. *)
Theorem whatsapp_link_iff_selected e req d s row rows link :
  body_mobileNumber req = JStr s →
  ten_digit_string s = true →
  storage_down e (SelectTestResult (JStr s)) = false →
  select_test_result s d = row :: rows →
  WHATSAPP_LINK e = Some link →
  (∃ l, res (serve (handler api_search_result) e req d)
        = Some {| status := 200; body := BResult row l |}
        ∧ (l = Some link ↔ result row = Some "Selected")
        ∧ (l = None ↔ result row ≠ Some "Selected"))
  ∧ res (serve (handler api_track_search) e req d)
    = Some {| status := 200; body := BResult row None |}.
Proof.
  intros Hmn Hs Hup Hrow Hlink. split.
  - rewrite (response_valid _ _ _ _ s Hmn Hs), lookup_outcome_string, Hup, Hrow.
    eexists; split; [done|]. rewrite Hlink. case_decide; naive_solver.
  - by rewrite (response_valid _ _ _ _ s Hmn Hs), lookup_outcome_string,
      Hup, Hrow.
Qed.

Lemma whatsapp_link_iff_selected_witness :
  let req := post (JStr "9876543210") in
  (∃ l, res (serve (handler api_search_result) sample_env req sample_db)
        = Some {| status := 200; body := BResult asha l |}
        ∧ (l = Some "https://chat.whatsapp.com/sks"
           ↔ result asha = Some "Selected")
        ∧ (l = None ↔ result asha ≠ Some "Selected"))
  ∧ res (serve (handler api_track_search) sample_env req sample_db)
    = Some {| status := 200; body := BResult asha None |}.
Proof.
  apply (whatsapp_link_iff_selected sample_env (post (JStr "9876543210"))
           sample_db "9876543210" asha [] "https://chat.whatsapp.com/sks");
    reflexivity.
Defined.

(** C4 fails on [/api/track-search], whose response never carries
    [whatsappLink], also for a row whose [result] is ['Selected']; and on
    [/api/search-result] the field is missing for such a row while
    [WHATSAPP_LINK] is not set. *)
Lemma selected_without_link_counterexample :
  let req := post (JStr "9876543210") in
  result asha = Some "Selected"
  ∧ res (serve (handler api_track_search) sample_env req sample_db)
    = Some {| status := 200; body := BResult asha None |}
  ∧ res (serve (handler api_search_result) unconfigured_env req sample_db)
    = Some {| status := 200; body := BResult asha None |}.
Proof. vm_compute. done. Qed.

(** C5.  When the lookup of a valid number fails, the response is a 500
    with an error body, whatever the two best-effort writes do; and when
    the lookup runs, no failure of those writes turns the response into a
    500. *)
Theorem lookup_failure_surfaced r e e' req d s :
  body_mobileNumber req = JStr s →
  ten_digit_string s = true →
  storage_down e (SelectTestResult (JStr s)) = true →
  storage_down e' (SelectTestResult (JStr s)) = false →
  (∃ message, res (serve (handler r) e req d)
              = Some {| status := 500; body := BError message |})
  ∧ response_status (serve (handler r) e' req d) ≠ Some 500.
Proof.
  intros Hmn Hs Hdown Hup. unfold response_status.
  rewrite !(response_valid _ _ _ _ s Hmn Hs), !lookup_outcome_string,
    Hdown, Hup.
  split; [by eexists|]. by destruct (select_test_result s d).
Qed.

Lemma lookup_failure_surfaced_witness :
  let req := post (JStr "9876543210") in
  (∃ message, res (serve (handler api_track_search) lookup_down_env req
                     sample_db)
              = Some {| status := 500; body := BError message |})
  ∧ response_status (serve (handler api_track_search) tracking_down_env req
                       sample_db) ≠ Some 500.
Proof.
  apply (lookup_failure_surfaced api_track_search lookup_down_env
           tracking_down_env (post (JStr "9876543210")) sample_db
           "9876543210");
    reflexivity.
Defined.

(** C6.  A POST with a valid number for which the lookup finds no row is
    answered 404 with [{ error: 'No test result found for this mobile
    number' }]; the tracking upsert having run, the record of the number
    exists afterwards with its [click_count] one higher, and equal to 1
    when the number had no record. *)
Theorem not_found_still_tracked r e req d s :
  method req = "POST" →
  body_mobileNumber req = JStr s →
  ten_digit_string s = true →
  storage_down e (InsertSearch (JStr s)) = false →
  storage_down e (SelectTestResult (JStr s)) = false →
  select_test_result s d = [] →
  let w := serve (handler r) e req d in
  res w = Some {| status := 404;
                  body := BError "No test result found for this mobile number" |}
  ∧ ∃ row, mobile_searches (db w) !! s = Some row
           ∧ click_count row = clicks s d + 1
           ∧ (mobile_searches d !! s = None → click_count row = 1).
Proof.
  intros Hm Hmn Hs Htrack Hlookup Hnone w. subst w. split.
  - by rewrite (response_valid _ _ _ _ s Hmn Hs), lookup_outcome_string,
      Hlookup, Hnone.
  - pose proof (tracking_parameter_valid r req s Hm Hmn Hs) as Hp.
    destruct (tracked_row r e req d _ Hp Htrack)
      as (key & row & [= <-] & Hrow & _ & Hcount).
    exists row. split; [done|]. unfold clicks.
    destruct (mobile_searches d !! s); simpl; split; try done; lia.
Qed.

Lemma not_found_still_tracked_witness :
  let w := serve (handler api_search_result) sample_env
             (post (JStr "9000000000")) sample_db in
  res w = Some {| status := 404;
                  body := BError "No test result found for this mobile number" |}
  ∧ ∃ row, mobile_searches (db w) !! "9000000000" = Some row
           ∧ click_count row = clicks "9000000000" sample_db + 1
           ∧ (mobile_searches sample_db !! "9000000000" = None →
              click_count row = 1).
Proof.
  apply (not_found_still_tracked api_search_result sample_env
           (post (JStr "9000000000")) sample_db "9000000000");
    reflexivity.
Defined.

(** C8.  Two POSTs in a row with the same valid number, for which
    [test_results] has a row, get the same 200 response with that row as
    [data]; neither changes [test_results]; the lookups and the upserts
    having run, the [click_count] of the number is one higher after the
    first call and two higher after the second, while the responses, which
    carry a [TestResult] and the link only, are equal. *)
Theorem repeated_lookup_same_payload r e1 e2 req d s row rows :
  method req = "POST" →
  body_mobileNumber req = JStr s →
  ten_digit_string s = true →
  select_test_result s d = row :: rows →
  storage_down e1 (SelectTestResult (JStr s)) = false →
  storage_down e2 (SelectTestResult (JStr s)) = false →
  storage_down e1 (InsertSearch (JStr s)) = false →
  storage_down e2 (InsertSearch (JStr s)) = false →
  WHATSAPP_LINK e2 = WHATSAPP_LINK e1 →
  let w1 := serve (handler r) e1 req d in
  let w2 := serve (handler r) e2 req (db w1) in
  test_results (db w1) = test_results d
  ∧ test_results (db w2) = test_results d
  ∧ (∃ link, res w1 = Some {| status := 200; body := BResult row link |}
             ∧ res w2 = Some {| status := 200; body := BResult row link |})
  ∧ clicks s (db w1) = clicks s d + 1
  ∧ clicks s (db w2) = clicks s (db w1) + 1.
Proof.
  intros Hm Hmn Hs Hrow Hl1 Hl2 Ht1 Ht2 Hlink w1 w2. subst w1 w2.
  pose proof (tracking_parameter_valid r req s Hm Hmn Hs) as Hp.
  assert (test_results (db (serve (handler r) e1 req d)) = test_results d)
    as Hfixed by apply test_results_serve.
  split_and!.
  - done.
  - by rewrite test_results_serve.
  - rewrite !(response_valid _ _ _ _ s Hmn Hs), !lookup_outcome_string,
      Hl1, Hl2.
    unfold select_test_result in *. rewrite Hfixed, Hrow, Hlink.
    by eexists.
  - rewrite clicks_serve, Hp, Ht1. by rewrite decide_True.
  - rewrite (clicks_serve r e2), Hp, Ht2. by rewrite decide_True.
Qed.

Lemma repeated_lookup_same_payload_witness :
  let req := post (JStr "9876543210") in
  let w1 := serve (handler api_search_result) sample_env req sample_db in
  let w2 := serve (handler api_search_result) sample_env req (db w1) in
  test_results (db w1) = test_results sample_db
  ∧ test_results (db w2) = test_results sample_db
  ∧ (∃ link, res w1 = Some {| status := 200; body := BResult asha link |}
             ∧ res w2 = Some {| status := 200; body := BResult asha link |})
  ∧ clicks "9876543210" (db w1) = clicks "9876543210" sample_db + 1
  ∧ clicks "9876543210" (db w2) = clicks "9876543210" (db w1) + 1.
Proof.
  apply (repeated_lookup_same_payload api_search_result sample_env sample_env
           (post (JStr "9876543210")) sample_db "9876543210" asha []);
    reflexivity.
Defined.

(** ** The empty key *)

Lemma falsy_tracking_parameter req :
  truthy (body_mobileNumber req) = false →
  tracking_parameter api_track_search req = Some (JStr "").
Proof. intros Ht. simpl. unfold or_else. by rewrite Ht. Qed.

Lemma falsy_batch_tracked reqs :
  Forall (λ er : Env * Request,
            truthy (body_mobileNumber er.2) = false
            ∧ storage_down er.1 (InsertSearch (JStr "")) = false) reqs →
  tracking_up api_track_search reqs
  ∧ tracked_requests api_track_search "" reqs = Z.of_nat (length reqs).
Proof.
  unfold tracking_up.
  induction 1 as [|[e req] reqs [Ht Hup] _ [IH1 IH2]]; [done|]. split.
  - constructor; [|done]. intros p Hp. simpl in Ht, Hup.
    change (tracking_parameter api_track_search req = Some p) in Hp.
    rewrite (falsy_tracking_parameter req Ht) in Hp. by injection Hp as <-.
  - simpl in Ht. rewrite tracked_requests_cons, IH2. unfold tracking_key.
    rewrite (falsy_tracking_parameter req Ht). simpl.
    rewrite ?decide_True by done. simpl length. lia.
Qed.

(** C10.  On [/api/track-search] a request whose [mobileNumber] is
    missing, null or otherwise falsy sends the tracking upsert with the
    empty string as key, first, and is then answered 400; the upsert having
    run, the count of the empty key is one higher.  A batch of such
    requests raises that count by the number of requests, on the one record
    whose [mobile_number] is the empty string, which is no ten-digit
    string. *)
Theorem falsy_number_counted_under_empty_key e req d reqs :
  truthy (body_mobileNumber req) = false →
  Forall (λ er : Env * Request,
            truthy (body_mobileNumber er.2) = false
            ∧ storage_down er.1 (InsertSearch (JStr "")) = false) reqs →
  let w := serve (handler api_track_search) e req d in
  let invalid := {| status := 400; body := BError "Invalid mobile number" |} in
  let d' := serve_all (handler api_track_search) reqs d in
  (∃ logged, trace w
             = Execute (InsertSearch (JStr "")) :: logged ++ [Respond invalid])
  ∧ res w = Some invalid
  ∧ (storage_down e (InsertSearch (JStr "")) = false →
     clicks "" (db w) = clicks "" d + 1)
  ∧ clicks "" d' = clicks "" d + Z.of_nat (length reqs)
  ∧ (mobile_searches d !! "" = None → reqs ≠ [] →
     ∃ row, mobile_searches d' !! "" = Some row
            ∧ click_count row = Z.of_nat (length reqs))
  ∧ ten_digit_string "" = false.
Proof.
  intros Ht Hreqs w invalid d'. subst w invalid d'.
  pose proof (falsy_tracking_parameter req Ht) as Hp.
  assert (invalid_mobile_number (body_mobileNumber req) = true) as Hinv.
  { unfold invalid_mobile_number. by rewrite Ht. }
  destruct (falsy_batch_tracked reqs Hreqs) as [Hup Hcount].
  pose proof (clicks_serve_all api_track_search reqs d "" Hup) as Hclicks.
  rewrite Hcount in Hclicks.
  split_and!.
  - rewrite handler_run. cbn [trace]. unfold tracking_events, lookup_events.
    rewrite Hp, Hinv. unfold expected_response. rewrite Hinv. simpl.
    by eexists.
  - rewrite response_eq. unfold expected_response. by rewrite Hinv.
  - intros Hrun. rewrite clicks_serve, Hp, Hrun. by rewrite decide_True.
  - done.
  - intros Hnone Hne. revert Hclicks. unfold clicks. rewrite Hnone.
    generalize (serve_all (handler api_track_search) reqs d). intros d'.
    destruct (mobile_searches d' !! "") as [row|]; simpl.
    + intros Hrow. exists row. split; [done|lia].
    + destruct reqs; [done|]. simpl length. lia.
  - reflexivity.
Qed.

Lemma falsy_number_counted_under_empty_key_witness :
  let reqs := [(sample_env, post JNull); (sample_env, post JUndefined);
               (sample_env, post (JNum 0))] in
  let w := serve (handler api_track_search) sample_env (post JUndefined)
             sample_db in
  let invalid := {| status := 400; body := BError "Invalid mobile number" |} in
  let d' := serve_all (handler api_track_search) reqs sample_db in
  (∃ logged, trace w
             = Execute (InsertSearch (JStr "")) :: logged ++ [Respond invalid])
  ∧ res w = Some invalid
  ∧ (storage_down sample_env (InsertSearch (JStr "")) = false →
     clicks "" (db w) = clicks "" sample_db + 1)
  ∧ clicks "" d' = clicks "" sample_db + Z.of_nat (length reqs)
  ∧ (mobile_searches sample_db !! "" = None → reqs ≠ [] →
     ∃ row, mobile_searches d' !! "" = Some row
            ∧ click_count row = Z.of_nat (length reqs))
  ∧ ten_digit_string "" = false.
Proof.
  apply (falsy_number_counted_under_empty_key sample_env (post JUndefined)
           sample_db
           [(sample_env, post JNull); (sample_env, post JUndefined);
            (sample_env, post (JNum 0))]).
  - reflexivity.
  - repeat constructor.
Defined.

(** ** The admin report *)

Lemma select_searches_sorted d : StronglySorted more_recent (select_searches d).
Proof. apply StronglySorted_merge_sort; apply _. Qed.

Lemma select_searches_perm d : select_searches d ≡ₚ all_searches d.
Proof. apply merge_sort_Permutation. Qed.

(** The report holds the records of the table, each once. *)
Lemma elem_of_select_searches d k cols :
  {| mobile_number := k; columns := cols |} ∈ select_searches d
  ↔ mobile_searches d !! k = Some cols.
Proof.
  rewrite select_searches_perm. unfold all_searches.
  rewrite list_elem_of_fmap. split.
  - intros ([k' cols'] & [= -> ->] & Hin). by apply elem_of_map_to_list.
  - intros Hk. exists (k, cols). split; [done|]. by apply elem_of_map_to_list.
Qed.

Lemma length_select_searches d :
  length (select_searches d) = size (mobile_searches d).
Proof.
  rewrite select_searches_perm. unfold all_searches.
  by rewrite length_fmap, length_map_to_list.
Qed.

Lemma strict_eq_spec q v :
  strict_eq q v = true
  ↔ match v with Some s => q = QStr s | None => q = QUndefined end.
Proof.
  destruct q as [|a|], v as [b|]; simpl; try done.
  rewrite String.eqb_eq. split; congruence.
Qed.

(** The report of an authenticated request that the storage layer
    serves. *)
Lemma admin_authorized r e req d :
  strict_eq (query_secret req) (ADMIN_SECRET e) = true →
  storage_down e SelectSearches = false →
  ∃ data,
    res (serve (admin_handler r) e req d)
    = Some {| status := 200;
              body := BSearches data (Z.of_nat (length data)) |}
    ∧ (∀ k cols, {| mobile_number := k; columns := cols |} ∈ data
                 ↔ mobile_searches d !! k = Some cols)
    ∧ length data = size (mobile_searches d)
    ∧ StronglySorted more_recent data.
Proof.
  intros Heq Hup. exists (select_searches d). split_and!.
  - rewrite admin_run. simpl. unfold admin_response. by rewrite Heq, Hup.
  - apply elem_of_select_searches.
  - apply length_select_searches.
  - apply select_searches_sorted.
Qed.

Lemma admin_unauthorized r e req d :
  strict_eq (query_secret req) (ADMIN_SECRET e) = false →
  let unauthorized := {| status := 401; body := BError "Unauthorized" |} in
  res (serve (admin_handler r) e req d) = Some unauthorized
  ∧ trace (serve (admin_handler r) e req d) = [Respond unauthorized].
Proof.
  intros Hne. rewrite admin_run. simpl. unfold admin_response.
  by rewrite Hne.
Qed.

(** C7.  With [ADMIN_SECRET] configured, a request whose [secret] is
    anything but that value, a missing one included, is answered 401 with
    [{ error: 'Unauthorized' }] and the table is not even read; a request
    with the configured secret, the query having run, is answered 200 with
    every record of [mobile_searches], each once, most recent
    [last_updated] first, and [total] the number of records in [data]. *)
Theorem admin_listing r e req d secret :
  ADMIN_SECRET e = Some secret →
  let w := serve (admin_handler r) e req d in
  let unauthorized := {| status := 401; body := BError "Unauthorized" |} in
  (query_secret req ≠ QStr secret →
   res w = Some unauthorized ∧ trace w = [Respond unauthorized])
  ∧ (query_secret req = QStr secret →
     storage_down e SelectSearches = false →
     ∃ data,
       res w = Some {| status := 200;
                       body := BSearches data (Z.of_nat (length data)) |}
       ∧ (∀ k cols, {| mobile_number := k; columns := cols |} ∈ data
                    ↔ mobile_searches d !! k = Some cols)
       ∧ length data = size (mobile_searches d)
       ∧ StronglySorted more_recent data).
Proof.
  intros Hcfg w unauthorized. subst w unauthorized. split.
  - intros Hne. apply admin_unauthorized.
    destruct (strict_eq _ _) eqn:Heq; [|done].
    apply strict_eq_spec in Heq. by rewrite Hcfg in Heq.
  - intros Heq Hup. apply admin_authorized; [|done].
    apply strict_eq_spec. by rewrite Hcfg.
Qed.

Lemma admin_listing_witness :
  let d := serve_all (handler api_track_search)
             [(sample_env, post (JStr "9876543210")); (sample_env, post JNull)]
             sample_db in
  let unauthorized := {| status := 401; body := BError "Unauthorized" |} in
  let w1 := serve (admin_handler api_track_search) sample_env
              (get_admin (QStr "wrong")) d in
  let w2 := serve (admin_handler api_track_search) sample_env
              (get_admin (QStr "s3cret")) d in
  (res w1 = Some unauthorized ∧ trace w1 = [Respond unauthorized])
  ∧ ∃ data,
      res w2 = Some {| status := 200;
                       body := BSearches data (Z.of_nat (length data)) |}
      ∧ (∀ k cols, {| mobile_number := k; columns := cols |} ∈ data
                   ↔ mobile_searches d !! k = Some cols)
      ∧ length data = size (mobile_searches d)
      ∧ StronglySorted more_recent data.
Proof.
  intros d unauthorized w1 w2. split.
  - apply (admin_listing api_track_search sample_env (get_admin (QStr "wrong"))
             d "s3cret"); [reflexivity|discriminate].
  - apply (admin_listing api_track_search sample_env (get_admin (QStr "s3cret"))
             d "s3cret"); reflexivity.
Defined.

(** C9.  The admin handler answers 401 exactly when [secret] is not
    strictly equal to [process.env.ADMIN_SECRET].  With [ADMIN_SECRET]
    unset, a request without [secret] passes the check and, the query
    having run, gets the whole table in a 200. *)
Theorem unauthorized_iff_secret_differs r e req d :
  let w := serve (admin_handler r) e req d in
  (response_status w = Some 401
   ↔ strict_eq (query_secret req) (ADMIN_SECRET e) = false)
  ∧ (ADMIN_SECRET e = None →
     query_secret req = QUndefined →
     storage_down e SelectSearches = false →
     ∃ data,
       res w = Some {| status := 200;
                       body := BSearches data (Z.of_nat (length data)) |}
       ∧ (∀ k cols, {| mobile_number := k; columns := cols |} ∈ data
                    ↔ mobile_searches d !! k = Some cols)
       ∧ length data = size (mobile_searches d)).
Proof.
  intros w. subst w. split.
  - unfold response_status. rewrite admin_run. simpl. unfold admin_response.
    destruct (strict_eq _ _); simpl; [|done].
    by destruct (storage_down e SelectSearches).
  - intros Hcfg Hq Hup.
    destruct (admin_authorized r e req d) as (data & ? & ? & ? & _);
      [by rewrite Hcfg, Hq|done|by exists data].
Qed.

Lemma unauthorized_iff_secret_differs_witness :
  let d := serve_all (handler api_search_result)
             [(sample_env, post (JStr "9876543210"))] sample_db in
  let w := serve (admin_handler api_search_result) unconfigured_env
             (get_admin QUndefined) d in
  ∃ data,
    res w = Some {| status := 200;
                    body := BSearches data (Z.of_nat (length data)) |}
    ∧ (∀ k cols, {| mobile_number := k; columns := cols |} ∈ data
                 ↔ mobile_searches d !! k = Some cols)
    ∧ length data = size (mobile_searches d).
Proof.
  intros d w.
  apply (unauthorized_iff_secret_differs api_search_result unconfigured_env
           (get_admin QUndefined) d); reflexivity.
Defined.

(** * Further properties of the handlers *)

(** ** The two writes, key by key *)

Lemma lookup_upsert_ne now k k' d :
  k ≠ k' → mobile_searches (upsert now k d) !! k' = mobile_searches d !! k'.
Proof.
  intros Hne. unfold upsert.
  destruct (mobile_searches d !! k); simpl; by rewrite lookup_insert_ne.
Qed.

Lemma lookup_update_name_ne now n k k' d :
  k ≠ k' →
  mobile_searches (update_name now n k d) !! k' = mobile_searches d !! k'.
Proof.
  intros Hne. unfold update_name.
  destruct (mobile_searches d !! k); [|done].
  case_decide; [done|]. simpl. by rewrite lookup_insert_ne.
Qed.

Lemma lookup_update_name_eq now n k d row :
  mobile_searches d !! k = Some row →
  mobile_searches (update_name now n k d) !! k
  = Some {| sr_id := sr_id row; click_count := click_count row;
            sr_name := Some n;
            last_updated := if decide (sr_name row = Some n)
                            then last_updated row else now |}.
Proof.
  intros Hrow. unfold update_name. rewrite Hrow.
  case_decide as Hn; simpl.
  - rewrite Hrow. destruct row; simpl in *. by rewrite Hn.
  - by rewrite lookup_insert_eq.
Qed.

Lemma auto_increment_update_name now n k d :
  auto_increment (update_name now n k d) = auto_increment d.
Proof.
  unfold update_name. destruct (mobile_searches d !! k); [|done].
  by case_decide.
Qed.

(** A record outlives an upsert with its [id], and its count moves by one
    at most. *)
Lemma upsert_keeps now k k' d row :
  mobile_searches d !! k' = Some row →
  ∃ row', mobile_searches (upsert now k d) !! k' = Some row'
          ∧ sr_id row' = sr_id row
          ∧ sr_name row' = sr_name row
          ∧ click_count row ≤ click_count row' ≤ click_count row + 1.
Proof.
  intros Hrow. destruct (decide (k = k')) as [->|Hne].
  - unfold upsert. rewrite Hrow. simpl. rewrite lookup_insert_eq.
    eexists. split; [reflexivity|]. simpl. split_and!; (done || lia).
  - rewrite lookup_upsert_ne by done. exists row.
    split_and!; (done || lia).
Qed.

Lemma update_name_keeps now n k k' d row :
  mobile_searches d !! k' = Some row →
  ∃ row', mobile_searches (update_name now n k d) !! k' = Some row'
          ∧ sr_id row' = sr_id row
          ∧ click_count row' = click_count row.
Proof.
  intros Hrow. destruct (decide (k = k')) as [->|Hne].
  - rewrite (lookup_update_name_eq _ _ _ _ _ Hrow). by eexists.
  - rewrite lookup_update_name_ne by done. by exists row.
Qed.

(** The tables after a run, phase by phase. *)
Lemma db_serve r e req d :
  db (serve (handler r) e req d)
  = after_reconciliation e (body_mobileNumber req)
      (lookup_outcome e (body_mobileNumber req) d) (after_tracking r e req d).
Proof. by rewrite handler_run. Qed.

Lemma trace_serve r e req d :
  trace (serve (handler r) e req d)
  = tracking_events r e req
    ++ lookup_events r e (body_mobileNumber req)
         (lookup_outcome e (body_mobileNumber req) d)
    ++ [Respond (expected_response r (WHATSAPP_LINK e) (body_mobileNumber req)
                   (lookup_outcome e (body_mobileNumber req) d))].
Proof. by rewrite handler_run. Qed.

Lemma responses_app t1 t2 : responses (t1 ++ t2) = responses t1 ++ responses t2.
Proof. apply omap_app. Qed.

Lemma responses_tracking_events r e req : responses (tracking_events r e req) = [].
Proof.
  unfold tracking_events. destruct (tracking_parameter r req); [|done].
  simpl. by destruct (storage_down _ _).
Qed.

Lemma responses_lookup_events r e mn found :
  responses (lookup_events r e mn found) = [].
Proof.
  unfold lookup_events. destruct (invalid_mobile_number mn); [done|].
  destruct found as [[|row rows]|]; try done.
  simpl. by destruct (storage_down _ _).
Qed.

(** X1.  Whatever the request and whatever the storage layer does, a track
    handler returns without an exception escaping it, having sent exactly
    one response, as the last thing it does. *)
Theorem handler_responds_once r e req d :
  ∃ w response,
    handler r req e {| db := d; res := None; trace := [] |} = (Normal tt, w)
    ∧ res w = Some response
    ∧ responses (trace w) = [response]
    ∧ last (trace w) = Some (Respond response).
Proof.
  rewrite handler_completes. eexists _, _. split_and!; [done|done|..]; simpl.
  - rewrite !responses_app, responses_tracking_events,
      responses_lookup_events. done.
  - by rewrite !app_assoc, last_snoc.
Qed.

(** The record of a valid number after a run in which the upsert and the
    name update both ran. *)
Lemma reconciled_row r e req d s row rows :
  method req = "POST" →
  body_mobileNumber req = JStr s →
  ten_digit_string s = true →
  storage_down e (InsertSearch (JStr s)) = false →
  storage_down e (SelectTestResult (JStr s)) = false →
  select_test_result s d = row :: rows →
  mobile_searches (db (serve (handler r) e req d)) !! s
  = if storage_down e (UpdateName (tr_name row) (JStr s))
    then mobile_searches (upsert (CURRENT_TIMESTAMP e) s d) !! s
    else mobile_searches
           (update_name (CURRENT_TIMESTAMP e) (tr_name row) s
              (upsert (CURRENT_TIMESTAMP e) s d)) !! s.
Proof.
  intros Hm Hmn Hs Hup Hlookup Hrow.
  pose proof (tracking_parameter_valid r req s Hm Hmn Hs) as Hp.
  destruct (valid_string s Hs) as [Hinv _].
  rewrite db_serve. unfold after_tracking, after_reconciliation.
  rewrite Hp, Hup, Hmn, Hinv, lookup_outcome_string, Hlookup, Hrow.
  simpl. by destruct (storage_down e (UpdateName _ _)).
Qed.

(** X2.  A POST with a valid number whose lookup finds a row, all three
    statements having run, leaves the record of the number with the name of
    the row found, its count one higher and [last_updated] at the current
    time. *)
Theorem name_reconciled r e req d s row rows :
  method req = "POST" →
  body_mobileNumber req = JStr s →
  ten_digit_string s = true →
  storage_down e (InsertSearch (JStr s)) = false →
  storage_down e (SelectTestResult (JStr s)) = false →
  storage_down e (UpdateName (tr_name row) (JStr s)) = false →
  select_test_result s d = row :: rows →
  ∃ cols, mobile_searches (db (serve (handler r) e req d)) !! s = Some cols
          ∧ sr_name cols = Some (tr_name row)
          ∧ click_count cols = clicks s d + 1
          ∧ last_updated cols = CURRENT_TIMESTAMP e.
Proof.
  intros Hm Hmn Hs Hup Hlookup Hupd Hrow.
  rewrite (reconciled_row r e req d s row rows) by done. rewrite Hupd.
  destruct (upsert_row (CURRENT_TIMESTAMP e) s d) as (row0 & Hrow0 & Ht & Hc).
  rewrite (lookup_update_name_eq _ _ _ _ _ Hrow0).
  eexists; split_and!; [done|done|..]; simpl.
  - rewrite Hc. unfold clicks. by destruct (mobile_searches d !! s).
  - by case_decide.
Qed.

Lemma name_reconciled_witness :
  ∃ cols,
    mobile_searches
      (db (serve (handler api_track_search) sample_env
             (post (JStr "9876543210")) sample_db)) !! "9876543210"
    = Some cols
    ∧ sr_name cols = Some (tr_name asha)
    ∧ click_count cols = clicks "9876543210" sample_db + 1
    ∧ last_updated cols = CURRENT_TIMESTAMP sample_env.
Proof.
  apply (name_reconciled api_track_search sample_env
           (post (JStr "9876543210")) sample_db "9876543210" asha []);
    reflexivity.
Defined.

(** X3.  When the name update fails, the failure is logged and nothing
    else changes: the response is the 200 of the run in which it succeeds,
    the click is counted, and the record keeps the name it had ([NULL] for
    a new record). *)
Theorem reconciliation_failure_isolated r e e' req d s row rows :
  method req = "POST" →
  body_mobileNumber req = JStr s →
  ten_digit_string s = true →
  storage_down e (InsertSearch (JStr s)) = false →
  storage_down e (SelectTestResult (JStr s)) = false →
  storage_down e (UpdateName (tr_name row) (JStr s)) = true →
  select_test_result s d = row :: rows →
  WHATSAPP_LINK e' = WHATSAPP_LINK e →
  storage_down e' (SelectTestResult (JStr s)) = false →
  let w := serve (handler r) e req d in
  ConsoleError "Name update error:" ∈ trace w
  ∧ res w = res (serve (handler r) e' req d)
  ∧ response_status w = Some 200
  ∧ ∃ cols, mobile_searches (db w) !! s = Some cols
            ∧ sr_name cols = (mobile_searches d !! s) ≫= sr_name
            ∧ click_count cols = clicks s d + 1.
Proof.
  intros Hm Hmn Hs Hup Hlookup Hupd Hrow Hlink Hlookup' w. subst w.
  destruct (valid_string s Hs) as [Hinv _]. split_and!.
  - rewrite trace_serve. unfold lookup_events.
    rewrite Hmn, Hinv, lookup_outcome_string, Hlookup, Hrow, Hupd.
    set_solver.
  - symmetry. apply response_determined; try done.
    by rewrite Hmn, Hlookup, Hlookup'.
  - unfold response_status.
    by rewrite (response_valid _ _ _ _ s Hmn Hs), lookup_outcome_string,
      Hlookup, Hrow.
  - rewrite (reconciled_row r e req d s row rows) by done. rewrite Hupd.
    unfold upsert, clicks.
    destruct (mobile_searches d !! s) as [old|]; simpl;
      rewrite lookup_insert_eq; by eexists.
Qed.

Lemma reconciliation_failure_isolated_witness :
  let req := post (JStr "9876543210") in
  let w := serve (handler api_search_result) update_down_env req sample_db in
  ConsoleError "Name update error:" ∈ trace w
  ∧ res w = res (serve (handler api_search_result) sample_env req sample_db)
  ∧ response_status w = Some 200
  ∧ ∃ cols, mobile_searches (db w) !! "9876543210" = Some cols
            ∧ sr_name cols = (mobile_searches sample_db !! "9876543210")
                             ≫= sr_name
            ∧ click_count cols = clicks "9876543210" sample_db + 1.
Proof.
  apply (reconciliation_failure_isolated api_search_result update_down_env
           sample_env (post (JStr "9876543210")) sample_db "9876543210"
           asha []);
    reflexivity.
Defined.

(** ** What a request leaves alone *)

Lemma after_tracking_other r e req d k :
  tracking_key r req ≠ Some k →
  mobile_searches (after_tracking r e req d) !! k = mobile_searches d !! k.
Proof.
  unfold tracking_key, after_tracking.
  destruct (tracking_parameter r req) as [p|]; simpl; [|done].
  intros Hk. destruct (storage_down _ _); [done|].
  destruct (as_varchar p) as [k'|]; simpl; [|done].
  apply lookup_upsert_ne. congruence.
Qed.

Lemma after_reconciliation_other e mn found d k :
  as_varchar mn ≠ Some k →
  mobile_searches (after_reconciliation e mn found d) !! k
  = mobile_searches d !! k.
Proof.
  intros Hk. unfold after_reconciliation.
  destruct (invalid_mobile_number mn); [done|].
  destruct found as [[|row rows]|]; try done.
  destruct (storage_down _ _); [done|].
  destruct (as_varchar mn) as [k'|]; simpl; [|done].
  apply lookup_update_name_ne. congruence.
Qed.

Lemma serve_other r e req d k :
  tracking_key r req ≠ Some k →
  as_varchar (body_mobileNumber req) ≠ Some k →
  mobile_searches (db (serve (handler r) e req d)) !! k
  = mobile_searches d !! k.
Proof.
  intros Htrack Hname. rewrite db_serve.
  rewrite after_reconciliation_other by done.
  by apply after_tracking_other.
Qed.

(** X4.  A request touches the record of its own number only: the record
    of every key other than the one it is tracked under and the one its
    name update is addressed to is afterwards as it was. *)
Theorem other_records_untouched r e req d k :
  tracking_key r req ≠ Some k →
  as_varchar (body_mobileNumber req) ≠ Some k →
  mobile_searches (db (serve (handler r) e req d)) !! k
  = mobile_searches d !! k.
Proof. apply serve_other. Qed.

Lemma other_records_untouched_witness :
  let d := db (serve (handler api_track_search) sample_env
                 (post (JStr "9000000000")) sample_db) in
  mobile_searches
    (db (serve (handler api_track_search) sample_env
           (post (JStr "9876543210")) d)) !! "9000000000"
  = mobile_searches d !! "9000000000".
Proof.
  intros d.
  apply (other_records_untouched api_track_search sample_env
           (post (JStr "9876543210")) d "9000000000");
    discriminate.
Defined.

Lemma serve_keeps r e req d k row :
  mobile_searches d !! k = Some row →
  ∃ row', mobile_searches (db (serve (handler r) e req d)) !! k = Some row'
          ∧ sr_id row' = sr_id row
          ∧ click_count row ≤ click_count row' ≤ click_count row + 1.
Proof.
  intros Hrow. rewrite db_serve.
  assert (∃ row1, mobile_searches (after_tracking r e req d) !! k = Some row1
                  ∧ sr_id row1 = sr_id row
                  ∧ click_count row ≤ click_count row1 ≤ click_count row + 1)
    as (row1 & Hrow1 & Hid1 & Hc1).
  { unfold after_tracking.
    destruct (tracking_parameter r req) as [p|];
      [|exists row; split_and!; (done || lia)].
    destruct (storage_down _ _); [exists row; split_and!; (done || lia)|].
    destruct (as_varchar p) as [k'|]; simpl;
      [|exists row; split_and!; (done || lia)].
    destruct (upsert_keeps (CURRENT_TIMESTAMP e) k' k d row Hrow)
      as (row' & ? & ? & _ & ?).
    by exists row'. }
  unfold after_reconciliation.
  destruct (invalid_mobile_number _);
    [exists row1; split_and!; (done || lia)|].
  destruct (lookup_outcome _ _ _) as [[|t rows]|];
    try (exists row1; split_and!; (done || lia)).
  destruct (storage_down _ _); [exists row1; split_and!; (done || lia)|].
  destruct (as_varchar (body_mobileNumber req)) as [k'|]; simpl;
    [|exists row1; split_and!; (done || lia)].
  destruct (update_name_keeps (CURRENT_TIMESTAMP e) (tr_name t) k' k _ row1
              Hrow1) as (row' & ? & ? & ?).
  exists row'. split_and!; (done || lia).
Qed.

(** X5.  The service never deletes a record and never changes its [id]:
    over any batch of requests, a record that exists at the start exists at
    the end under the same [id], and its [click_count] has not gone down
    nor grown by more than the number of requests. *)
Theorem records_persist r reqs d k row :
  mobile_searches d !! k = Some row →
  ∃ row', mobile_searches (serve_all (handler r) reqs d) !! k = Some row'
          ∧ sr_id row' = sr_id row
          ∧ click_count row ≤ click_count row'
            ≤ click_count row + Z.of_nat (length reqs).
Proof.
  revert d row. induction reqs as [|[e req] reqs IH]; intros d row Hrow.
  - exists row. simpl. split_and!; (done || lia).
  - destruct (serve_keeps r e req d k row Hrow) as (row1 & Hrow1 & Hid1 & Hc1).
    destruct (IH _ _ Hrow1) as (row' & Hrow' & Hid' & Hc').
    exists row'. simpl serve_all. simpl length.
    split_and!; (done || congruence || lia).
Qed.

Lemma records_persist_witness :
  let d := db (serve (handler api_track_search) sample_env
                 (post (JStr "9876543210")) sample_db) in
  let reqs := [(sample_env, post JNull);
               (tracking_down_env, post (JStr "9876543210"));
               (sample_env, post (JStr "9876543210"))] in
  ∃ row', mobile_searches (serve_all (handler api_track_search) reqs d)
            !! "9876543210" = Some row'
          ∧ sr_id row' = 1
          ∧ 1 ≤ click_count row' ≤ 1 + Z.of_nat (length reqs).
Proof.
  intros d reqs.
  apply (records_persist api_track_search reqs d "9876543210"
           {| sr_id := 1; click_count := 1; sr_name := Some "Asha";
              last_updated := 1000 |}).
  reflexivity.
Defined.

(** X6.  On [/api/search-result] a request whose [mobileNumber] is missing
    or falsy reaches neither table: no statement is sent, nothing is
    logged, the tables are as they were, and the 400 is all that
    happens, also with the storage layer down. *)
Theorem falsy_search_result_noop e req d :
  truthy (body_mobileNumber req) = false →
  let invalid := {| status := 400; body := BError "Invalid mobile number" |} in
  serve (handler api_search_result) e req d
  = {| db := d; res := Some invalid; trace := [Respond invalid] |}.
Proof.
  intros Ht invalid. subst invalid. rewrite handler_run.
  assert (invalid_mobile_number (body_mobileNumber req) = true) as Hinv.
  { unfold invalid_mobile_number. by rewrite Ht. }
  unfold after_reconciliation, after_tracking, tracking_events, lookup_events,
    expected_response, tracking_parameter.
  by rewrite Hinv, Ht, andb_false_r.
Qed.

Lemma falsy_search_result_noop_witness :
  let invalid := {| status := 400; body := BError "Invalid mobile number" |} in
  serve (handler api_search_result) storage_down_env (post JUndefined) sample_db
  = {| db := sample_db; res := Some invalid; trace := [Respond invalid] |}.
Proof.
  apply (falsy_search_result_noop storage_down_env (post JUndefined) sample_db).
  reflexivity.
Defined.

Lemma statements_app t1 t2 :
  statements (t1 ++ t2) = statements t1 ++ statements t2.
Proof. apply omap_app. Qed.

(** X7.  A click is counted even when the request ends in a 500: for a
    POST with a valid number whose upsert ran and whose lookup failed, the
    count of the number is one higher, and the upsert and the lookup are
    the only statements sent (no name update is attempted). *)
Theorem failed_lookup_still_counts r e req d s :
  method req = "POST" →
  body_mobileNumber req = JStr s →
  ten_digit_string s = true →
  storage_down e (InsertSearch (JStr s)) = false →
  storage_down e (SelectTestResult (JStr s)) = true →
  let w := serve (handler r) e req d in
  response_status w = Some 500
  ∧ clicks s (db w) = clicks s d + 1
  ∧ statements (trace w)
    = [InsertSearch (JStr s); SelectTestResult (JStr s)].
Proof.
  intros Hm Hmn Hs Hup Hdown w. subst w.
  pose proof (tracking_parameter_valid r req s Hm Hmn Hs) as Hp.
  destruct (valid_string s Hs) as [Hinv _]. split_and!.
  - unfold response_status.
    by rewrite (response_valid _ _ _ _ s Hmn Hs), lookup_outcome_string, Hdown.
  - rewrite clicks_serve, Hp, Hup. by rewrite decide_True.
  - rewrite trace_serve. unfold tracking_events, lookup_events.
    by rewrite Hp, Hup, Hmn, Hinv, lookup_outcome_string, Hdown.
Qed.

Lemma failed_lookup_still_counts_witness :
  let w := serve (handler api_search_result) lookup_down_env
             (post (JStr "9876543210")) sample_db in
  response_status w = Some 500
  ∧ clicks "9876543210" (db w) = clicks "9876543210" sample_db + 1
  ∧ statements (trace w)
    = [InsertSearch (JStr "9876543210"); SelectTestResult (JStr "9876543210")].
Proof.
  apply (failed_lookup_still_counts api_search_result lookup_down_env
           (post (JStr "9876543210")) sample_db "9876543210");
    reflexivity.
Defined.

(** ** Surrogate keys *)

Lemma ids_consistent_same_ids d d' :
  auto_increment d' = auto_increment d →
  (∀ k, sr_id <$> mobile_searches d' !! k = sr_id <$> mobile_searches d !! k) →
  ids_consistent d → ids_consistent d'.
Proof.
  intros Hauto Hids [Hfresh Huniq]. split.
  - intros k row Hrow. pose proof (Hids k) as Hk. rewrite Hrow in Hk.
    destruct (mobile_searches d !! k) as [old|] eqn:Hold; [|done].
    injection Hk as Hk. rewrite Hauto, Hk. by eapply Hfresh.
  - intros k1 k2 row1 row2 H1 H2 Heq.
    pose proof (Hids k1) as Hk1. pose proof (Hids k2) as Hk2.
    rewrite H1 in Hk1. rewrite H2 in Hk2.
    destruct (mobile_searches d !! k1) as [old1|] eqn:Hold1; [|done].
    destruct (mobile_searches d !! k2) as [old2|] eqn:Hold2; [|done].
    injection Hk1 as Hk1. injection Hk2 as Hk2.
    eapply Huniq; [done..|congruence].
Qed.

Lemma ids_consistent_upsert now k d :
  ids_consistent d → ids_consistent (upsert now k d).
Proof.
  intros Hd. unfold upsert.
  destruct (mobile_searches d !! k) as [old|] eqn:Hold.
  - apply (ids_consistent_same_ids d); [done| |done]. intros k'. simpl.
    destruct (decide (k = k')) as [<-|Hne].
    + by rewrite lookup_insert_eq, Hold.
    + by rewrite lookup_insert_ne.
  - destruct Hd as [Hfresh Huniq]. split; simpl.
    + intros k' row. destruct (decide (k = k')) as [<-|Hne].
      * rewrite lookup_insert_eq. intros [= <-]. simpl. lia.
      * rewrite lookup_insert_ne by done. intros Hrow.
        pose proof (Hfresh _ _ Hrow). lia.
    + intros k1 k2 row1 row2.
      destruct (decide (k = k1)) as [<-|Hne1];
        destruct (decide (k = k2)) as [<-|Hne2]; try done;
        rewrite ?lookup_insert_eq, ?lookup_insert_ne by done.
      * intros [= <-] Hrow2 Heq. simpl in Heq.
        pose proof (Hfresh _ _ Hrow2). lia.
      * intros Hrow1 [= <-] Heq. simpl in Heq.
        pose proof (Hfresh _ _ Hrow1). lia.
      * apply Huniq.
Qed.

Lemma ids_consistent_update_name now n k d :
  ids_consistent d → ids_consistent (update_name now n k d).
Proof.
  apply ids_consistent_same_ids; [apply auto_increment_update_name|].
  intros k'. destruct (decide (k = k')) as [<-|Hne].
  - destruct (mobile_searches d !! k) as [row|] eqn:Hrow.
    + by rewrite (lookup_update_name_eq _ _ _ _ _ Hrow).
    + unfold update_name. rewrite Hrow. by rewrite Hrow.
  - by rewrite lookup_update_name_ne by done.
Qed.

Lemma ids_consistent_serve r e req d :
  ids_consistent d → ids_consistent (db (serve (handler r) e req d)).
Proof.
  intros Hd. rewrite db_serve.
  assert (ids_consistent (after_tracking r e req d)) as Ht.
  { unfold after_tracking. destruct (tracking_parameter r req); [|done].
    destruct (storage_down _ _); [done|].
    destruct (as_varchar _); simpl; [|done].
    by apply ids_consistent_upsert. }
  unfold after_reconciliation.
  destruct (invalid_mobile_number _); [done|].
  destruct (lookup_outcome _ _ _) as [[|t rows]|]; try done.
  destruct (storage_down _ _); [done|].
  destruct (as_varchar _); simpl; [|done].
  by apply ids_consistent_update_name.
Qed.

(** X8.  The handlers keep the surrogate keys sound: if every [id] lies
    below the counter and no two records share an [id], the same holds
    after any batch of requests, whichever statements the storage layer
    fails. *)
Theorem ids_stay_unique r reqs d :
  ids_consistent d → ids_consistent (serve_all (handler r) reqs d).
Proof.
  revert d. induction reqs as [|[e req] reqs IH]; intros d Hd; [done|].
  simpl. apply IH. by apply ids_consistent_serve.
Qed.

Lemma ids_consistent_sample : ids_consistent sample_db.
Proof. split; intros *; simpl; by rewrite lookup_empty. Qed.

Lemma ids_stay_unique_witness :
  ids_consistent
    (serve_all (handler api_track_search)
       [(sample_env, post (JStr "9876543210")); (sample_env, post JNull);
        (update_down_env, post (JStr "9876543210"))] sample_db).
Proof.
  apply (ids_stay_unique api_track_search
           [(sample_env, post (JStr "9876543210")); (sample_env, post JNull);
            (update_down_env, post (JStr "9876543210"))] sample_db).
  split; intros *; simpl; by rewrite lookup_empty.
Defined.

(** ** The admin report, again *)

Lemma admin_completes r e req d :
  let response := admin_response r e (query_secret req) d in
  ∃ t, admin_handler r req e {| db := d; res := None; trace := [] |}
       = (Normal tt,
          {| db := d; res := Some response; trace := t ++ [Respond response] |})
       ∧ responses t = [].
Proof.
  unfold admin_response.
  destruct r; unfold_handler; simpl;
    destruct (strict_eq _ _); simpl;
    try (by exists []);
    destruct (storage_down e SelectSearches); simpl;
    first [by eexists [_] | by eexists [_; _]].
Qed.

(** X9.  The admin handler only reads: whatever the request and the
    storage layer do, it returns without an exception escaping, the tables
    are as they were, and exactly one response was sent; its status is 401,
    200 or 500, and it is 500 exactly when the secret matched and the query
    failed. *)
Theorem admin_read_only r e req d :
  ∃ w response,
    admin_handler r req e {| db := d; res := None; trace := [] |}
    = (Normal tt, w)
    ∧ db w = d
    ∧ res w = Some response
    ∧ responses (trace w) = [response]
    ∧ status response ∈ [401; 200; 500]
    ∧ (status response = 500
       ↔ strict_eq (query_secret req) (ADMIN_SECRET e) = true
         ∧ storage_down e SelectSearches = true).
Proof.
  destruct (admin_completes r e req d) as (t & -> & Ht).
  eexists _, _. split_and!; [done|done|done|..]; simpl.
  - by rewrite responses_app, Ht.
  - unfold admin_response. destruct (strict_eq _ _); simpl; [|set_solver].
    destruct (storage_down _ _); set_solver.
  - unfold admin_response. destruct (strict_eq _ _); simpl.
    + destruct (storage_down _ _); simpl; split; try done.
      by intros [_ ?].
    + split; [done|]. by intros [? _].
Qed.

(** ** Tracking, then reporting *)





Lemma tracked_request_frame r e req d p k k' :
  tracking_parameter r req = Some p →
  as_varchar p = Some k →
  k' ≠ k →
  mobile_searches (db (serve (handler r) e req d)) !! k'
  = mobile_searches d !! k'.
Proof.
  intros Hp Hk Hne.
  assert (tracking_key r req ≠ Some k') as Htrack.
  { unfold tracking_key. rewrite Hp. simpl. congruence. }
  destruct (invalid_mobile_number (body_mobileNumber req)) eqn:Hinv.
  - rewrite db_serve. unfold after_reconciliation. rewrite Hinv.
    by apply after_tracking_other.
  - apply serve_other; [done|].
    apply invalid_false_truthy in Hinv as Ht.
    apply tracking_parameter_spec in Hp as [[_ ->]|(_ & _ & _ & ->)].
    + unfold or_else in Hk. rewrite Ht in Hk. congruence.
    + congruence.
Qed.

(** X11.  The number searched last heads the report: after a tracked
    request whose upsert ran at a time later than every [last_updated] in
    the table, an authenticated report that the storage layer serves starts
    with the record of that request's key, stamped with that time. *)
Theorem latest_search_listed_first r e req d p k e' req' :
  tracking_parameter r req = Some p →
  as_varchar p = Some k →
  storage_down e (InsertSearch p) = false →
  (∀ k' row, mobile_searches d !! k' = Some row →
             last_updated row < CURRENT_TIMESTAMP e) →
  strict_eq (query_secret req') (ADMIN_SECRET e') = true →
  storage_down e' SelectSearches = false →
  ∃ first rest,
    res (serve (admin_handler r) e' req' (db (serve (handler r) e req d)))
    = Some {| status := 200;
              body := BSearches (first :: rest)
                        (Z.of_nat (length (first :: rest))) |}
    ∧ mobile_number first = k
    ∧ last_updated first = CURRENT_TIMESTAMP e.
Proof.
  intros Hp Hk Hrun Hpast Heq Hrun'.
  destruct (admin_authorized r e' req' (db (serve (handler r) e req d))
              Heq Hrun') as (data & Hres & Hdata & _ & Hsorted).
  destruct (tracked_row r e req d p Hp Hrun)
    as (key & row & Hkey & Hrow & Hnow & _).
  assert (key = k) as -> by congruence.
  pose proof (proj2 (Hdata k row) Hrow) as Hin.
  destruct data as [|[k1 c1] rest]; [by apply elem_of_nil in Hin|].
  exists {| mobile_number := k1; columns := c1 |}, rest.
  split; [done|]. simpl.
  pose proof (proj1 (Hdata k1 c1) ltac:(left)) as Hfirst.
  destruct (decide (k1 = k)) as [->|Hne]; [split; congruence|].
  exfalso.
  rewrite (tracked_request_frame r e req d p k k1) in Hfirst by done.
  apply Hpast in Hfirst.
  apply elem_of_cons in Hin as [[= ? ?]|Hin]; [done|].
  apply StronglySorted_inv in Hsorted as [_ Hall].
  rewrite Forall_forall in Hall. apply Hall in Hin.
  unfold more_recent in Hin. simpl in Hin. lia.
Qed.

Lemma latest_search_listed_first_witness :
  let d := db (serve (handler api_track_search) sample_env
                 (post (JStr "9876543210")) sample_db) in
  let later := at_time 2000 sample_env in
  ∃ first rest,
    res (serve (admin_handler api_track_search) sample_env
           (get_admin (QStr "s3cret"))
           (db (serve (handler api_track_search) later (post JNull) d)))
    = Some {| status := 200;
              body := BSearches (first :: rest)
                        (Z.of_nat (length (first :: rest))) |}
    ∧ mobile_number first = ""
    ∧ last_updated first = CURRENT_TIMESTAMP later.
Proof.
  intros d later.
  apply (latest_search_listed_first api_track_search later (post JNull) d
           (JStr "") "" sample_env (get_admin (QStr "s3cret")));
    try reflexivity.
  intros k' row Hrow. subst d.
  destruct (decide (k' = "9876543210")) as [->|Hne].
  - vm_compute in Hrow. injection Hrow as <-. reflexivity.
  - rewrite (tracked_request_frame api_track_search sample_env
               (post (JStr "9876543210")) sample_db (JStr "9876543210")
               "9876543210" k') in Hrow by done.
    unfold sample_db in Hrow. simpl in Hrow. by rewrite lookup_empty in Hrow.
Defined.

(** ** The validation gate, characterised *)

Lemma digits_then_end_spec n s :
  digits_then_end n s = true
  ↔ String.length s = n
    ∧ Forall (λ c, (48 ≤ nat_of_ascii c ≤ 57)%nat) (list_ascii_of_string s).
Proof.
  revert s; induction n as [|n IH]; intros [|c s]; simpl.
  - by split.
  - split; [done|]. by intros [? _].
  - split; [done|]. by intros [? _].
  - rewrite andb_true_iff, IH. unfold is_digit.
    rewrite andb_true_iff, !Nat.leb_le, Forall_cons. split.
    + intros ([? ?] & ? & ?). split_and!; (done || lia).
    + intros (? & [? ?] & ?). split_and!; (done || lia).
Qed.

(** X12.  The gate's pattern accepts a string exactly when it has ten
    characters and each of them is one of the ASCII digits [0] to [9]: no
    sign, space, separator or line end is let through, and no other
    length. *)
Theorem ten_digit_string_spec s :
  ten_digit_string s = true
  ↔ String.length s = 10%nat
    ∧ Forall (λ c, (48 ≤ nat_of_ascii c ≤ 57)%nat) (list_ascii_of_string s).
Proof. apply digits_then_end_spec. Qed.

Lemma digits_then_end_string_of_uint n d :
  digits_then_end n (NilEmpty.string_of_uint d)
  = bool_decide (Decimal.nb_digits d = n).
Proof.
  revert n. induction d; intros [|n]; simpl; try done;
    rewrite IHd; apply bool_decide_ext; lia.
Qed.

Lemma of_uint_acc_bounds d acc :
  (Z.pos acc * 10 ^ Z.of_nat (Decimal.nb_digits d)
   ≤ Z.pos (Pos.of_uint_acc d acc)
   < (Z.pos acc + 1) * 10 ^ Z.of_nat (Decimal.nb_digits d))%Z.
Proof.
  revert acc. induction d; intros acc; simpl Pos.of_uint_acc;
    [simpl; lia|..];
    cbn [Decimal.nb_digits]; rewrite Nat2Z.inj_succ, Z.pow_succ_r by lia;
    match goal with
    | |- context [Pos.of_uint_acc d ?a] => pose proof (IHd a) as IH
    end;
    assert (0 < 10 ^ Z.of_nat (Decimal.nb_digits d))%Z by (apply Z.pow_pos_nonneg; lia);
    nia.
Qed.

Lemma to_uint_not_D0 p l : Pos.to_uint p ≠ Decimal.D0 l.
Proof.
  intros Hd.
  pose proof (DecimalPos.Unsigned.to_of (Pos.to_uint p)) as Hnorm.
  rewrite DecimalPos.Unsigned.of_to in Hnorm. simpl in Hnorm.
  rewrite Hd in Hnorm. unfold Decimal.unorm in Hnorm.
  destruct (Decimal.nzhead (Decimal.D0 l)) eqn:Hz; try discriminate Hnorm.
  - apply (DecimalPos.Unsigned.to_uint_nonzero p). by rewrite Hd, Hnorm.
  - by destruct (DecimalFacts.nzhead_nonzero _ _ Hz).
Qed.

Lemma string_of_uint_nonnil d :
  d ≠ Decimal.Nil → NilZero.string_of_uint d = NilEmpty.string_of_uint d.
Proof. by destruct d. Qed.

Lemma to_uint_bounds p :
  (10 ^ (Z.of_nat (Decimal.nb_digits (Pos.to_uint p)) - 1) ≤ Z.pos p
   < 10 ^ Z.of_nat (Decimal.nb_digits (Pos.to_uint p)))%Z.
Proof.
  pose proof (DecimalPos.Unsigned.of_to p) as Hof.
  pose proof (DecimalPos.Unsigned.to_uint_nonnil p) as Hnil.
  pose proof (to_uint_not_D0 p) as Hzero.
  destruct (Pos.to_uint p) as [|l|l|l|l|l|l|l|l|l|l]; [done|by destruct (Hzero l)|..];
    simpl in Hof; injection Hof as <-;
    cbn [Decimal.nb_digits]; rewrite Nat2Z.inj_succ, Z.pow_succ_r by lia;
    replace (Z.succ (Z.of_nat (Decimal.nb_digits l)) - 1)%Z
      with (Z.of_nat (Decimal.nb_digits l)) by lia;
    match goal with
    | |- context [Pos.of_uint_acc l ?a] =>
        pose proof (of_uint_acc_bounds l a) as Hb
    end;
    assert (0 < 10 ^ Z.of_nat (Decimal.nb_digits l))%Z
      by (apply Z.pow_pos_nonneg; lia);
    nia.
Qed.

Lemma ten_digits_iff p :
  Decimal.nb_digits (Pos.to_uint p) = 10%nat
  ↔ (1000000000 ≤ Z.pos p ≤ 9999999999)%Z.
Proof.
  pose proof (to_uint_bounds p) as Hb.
  set (m := Decimal.nb_digits (Pos.to_uint p)) in *. split.
  - intros Hm. rewrite Hm in Hb. simpl in Hb. lia.
  - intros Hp. destruct (decide (m = 10%nat)) as [|Hne]; [done|]. exfalso.
    destruct (decide (m < 10)%nat).
    + assert (10 ^ Z.of_nat m ≤ 10 ^ 9)%Z by (apply Z.pow_le_mono_r; lia).
      lia.
    + assert (10 ^ 10 ≤ 10 ^ (Z.of_nat m - 1))%Z
        by (apply Z.pow_le_mono_r; lia).
      lia.
Qed.

Lemma number_passes_gate n :
  invalid_mobile_number (JNum n) = false ↔ (1000000000 ≤ n ≤ 9999999999)%Z.
Proof.
  rewrite invalid_iff_not_ten_digits, negb_false_iff.
  unfold ten_digit_string. destruct n as [|p|p].
  - change (ToString (JNum 0)) with "0". split; [done|lia].
  - change (ToString (JNum (Z.pos p)))
      with (NilZero.string_of_uint (Pos.to_uint p)).
    rewrite string_of_uint_nonnil
      by apply DecimalPos.Unsigned.to_uint_nonnil.
    rewrite digits_then_end_string_of_uint, bool_decide_eq_true.
    apply ten_digits_iff.
  - change (ToString (JNum (Z.neg p)))
      with (String "-" (NilZero.string_of_uint (Pos.to_uint p))).
    split; [done|lia].
Qed.

Lemma status_400_iff_invalid r e req d :
  response_status (serve (handler r) e req d) = Some 400
  ↔ invalid_mobile_number (body_mobileNumber req) = true.
Proof.
  unfold response_status. rewrite response_eq. unfold expected_response.
  destruct (invalid_mobile_number _); simpl; [done|].
  by destruct (lookup_outcome _ _ _) as [[|row rows]|].
Qed.

(** X13.  A [mobileNumber] sent as a JSON number is turned away with a 400
    exactly when it lies outside [1000000000 .. 9999999999]: the numbers
    written with ten digits pass the gate like the strings of ten digits,
    every other number is invalid. *)
Theorem number_rejected_iff_not_ten_digits r e req d n :
  body_mobileNumber req = JNum n →
  response_status (serve (handler r) e req d) = Some 400
  ↔ ¬ (1000000000 ≤ n ≤ 9999999999).
Proof.
  intros Hmn. rewrite status_400_iff_invalid, Hmn.
  rewrite <- number_passes_gate.
  by destruct (invalid_mobile_number (JNum n)).
Qed.

Lemma number_rejected_iff_not_ten_digits_witness :
  response_status
    (serve (handler api_search_result) sample_env (post (JNum 987654321))
       sample_db) = Some 400
  ↔ ¬ (1000000000 ≤ 987654321 ≤ 9999999999).
Proof.
  apply (number_rejected_iff_not_ten_digits api_search_result sample_env
           (post (JNum 987654321)) sample_db 987654321).
  reflexivity.
Defined.

(** * [database.js]: start-up *)

Section init_database.
Import InitDatabase.

Lemma attempts_app first t1 t2 :
  attempts first (t1 ++ t2) = attempts first t1 ++ attempts first t2.
Proof. apply omap_app. Qed.

Lemma sleeps_app t1 t2 : sleeps (t1 ++ t2) = sleeps t1 ++ sleeps t2.
Proof. apply omap_app. Qed.

Lemma exits_app t1 t2 : exits (t1 ++ t2) = exits t1 ++ exits t2.
Proof. apply omap_app. Qed.

(** An attempt in which every statement runs. *)
Lemma attempt_runs down a w :
  attempt_fails down a = false →
  execute_all down a [Select1; CreateMobileSearches; CreateTestResults] w
  = (true,
     {| schema := {| has_mobile_searches := true; has_test_results := true |};
        trace := trace w ++ [Execute a Select1; Execute a CreateMobileSearches;
                             Execute a CreateTestResults] |}).
Proof.
  unfold attempt_fails. intros [[H1 H2]%orb_false_elim H3]%orb_false_elim.
  simpl. rewrite H1, H2, H3. simpl. by rewrite <- !app_assoc.
Qed.

(** An attempt with a failing statement: the rest of the block is skipped,
    and no table is lost. *)
Lemma attempt_breaks down a w :
  attempt_fails down a = true →
  ∃ t s,
    execute_all down a [Select1; CreateMobileSearches; CreateTestResults] w
    = (false, {| schema := s; trace := trace w ++ t |})
    ∧ attempts Select1 t = [a]
    ∧ sleeps t = []
    ∧ exits t = []
    ∧ (∀ m, ConsoleLog m ∉ t).
Proof.
  unfold attempt_fails. intros Hfail. simpl. unfold emit. simpl.
  destruct (down a Select1) eqn:H1; simpl.
  { exists [Execute a Select1]. eexists. split_and!; try done.
    intros m. by rewrite list_elem_of_singleton. }
  destruct (down a CreateMobileSearches) eqn:H2; simpl.
  { exists [Execute a Select1; Execute a CreateMobileSearches]. eexists.
    rewrite <- app_assoc. split_and!; try done.
    intros m. rewrite !elem_of_cons, elem_of_nil. by intros [|[|]]. }
  destruct (down a CreateTestResults) eqn:H3; simpl; [|done].
  exists [Execute a Select1; Execute a CreateMobileSearches;
          Execute a CreateTestResults]. eexists.
  rewrite <- !app_assoc. split_and!; try done.
  intros m. rewrite !elem_of_cons, elem_of_nil. by intros [|[|[|]]].
Qed.

Lemma init_loop_step down retries a w :
  init_loop down (S retries) a w
  = match execute_all down a
            [Select1; CreateMobileSearches; CreateTestResults] w with
    | (true, w1) => emit (ConsoleLog "Database initialized successfully") w1
    | (false, w1) =>
        let w2 := emit (ConsoleError "Database initialization error:") w1 in
        match retries with
        | O =>
            emit (ConsoleError
                    "Failed to initialize database after 5 attempts, continuing without DB")
              w2
        | S _ => init_loop down retries (S a) (emit (Sleep 10000) w2)
        end
    end.
Proof. reflexivity. Qed.

Lemma init_loop_succeeds down i : ∀ retries a w,
  (i < retries)%nat →
  (∀ j, (j < i)%nat → attempt_fails down (a + j) = true) →
  attempt_fails down (a + i) = false →
  ∃ t,
    init_loop down retries a w
    = {| schema := {| has_mobile_searches := true; has_test_results := true |};
         trace := trace w ++ t |}
    ∧ attempts Select1 t = seq a (S i)
    ∧ sleeps t = replicate i 10000
    ∧ exits t = []
    ∧ last t = Some (ConsoleLog "Database initialized successfully").
Proof.
  induction i as [|i IH]; intros retries a w Hlt Hfail Hok.
  - destruct retries as [|retries]; [lia|]. rewrite init_loop_step.
    rewrite Nat.add_0_r in Hok. rewrite (attempt_runs down a w Hok).
    eexists [_; _; _; _]. unfold emit. simpl. rewrite <- app_assoc.
    split_and!; done.
  - destruct retries as [|[|retries]]; [lia..|]. rewrite init_loop_step.
    destruct (attempt_breaks down a w) as (t & s & -> & Ha & Hs & He & _).
    { rewrite <- (Nat.add_0_r a). apply Hfail. lia. }
    cbv beta iota zeta.
    destruct (IH (S retries) (S a)
                (emit (Sleep 10000)
                   (emit (ConsoleError "Database initialization error:")
                      {| schema := s; trace := trace w ++ t |})))
      as (t' & -> & Ha' & Hs' & He' & Hlast);
      [lia| |by rewrite Nat.add_succ_comm|].
    { intros j Hj. rewrite Nat.add_succ_comm. apply Hfail. lia. }
    exists (t ++ [ConsoleError "Database initialization error:"; Sleep 10000]
              ++ t').
    split_and!.
    + unfold emit. simpl. by rewrite <- !app_assoc.
    + rewrite !attempts_app, Ha, Ha'. done.
    + rewrite !sleeps_app, Hs, Hs'. done.
    + rewrite !exits_app, He, He'. done.
    + rewrite !app_assoc, last_app, Hlast. done.
Qed.
Lemma init_loop_exhausted down retries : ∀ a w,
  (0 < retries)%nat →
  (∀ j, (j < retries)%nat → attempt_fails down (a + j) = true) →
  ∃ t s,
    init_loop down retries a w = {| schema := s; trace := trace w ++ t |}
    ∧ attempts Select1 t = seq a retries
    ∧ sleeps t = replicate (retries - 1) 10000
    ∧ exits t = []
    ∧ (∀ m, ConsoleLog m ∉ t)
    ∧ last t
      = Some (ConsoleError
                "Failed to initialize database after 5 attempts, continuing without DB").
Proof.
  induction retries as [|retries IH]; intros a w Hpos Hfail; [lia|].
  rewrite init_loop_step.
  destruct (attempt_breaks down a w) as (t & s & -> & Ha & Hs & He & Hlog).
  { rewrite <- (Nat.add_0_r a). apply Hfail. lia. }
  cbv beta iota zeta. destruct retries as [|retries].
  - exists (t ++ [ConsoleError "Database initialization error:";
                  ConsoleError
                    "Failed to initialize database after 5 attempts, continuing without DB"]),
      s.
    split_and!.
    + unfold emit. simpl. by rewrite <- !app_assoc.
    + by rewrite attempts_app, Ha.
    + by rewrite sleeps_app, Hs.
    + by rewrite exits_app, He.
    + intros m. rewrite elem_of_app, !elem_of_cons, elem_of_nil.
      intros [?|[|[|]]]; try done. by apply (Hlog m).
    + by rewrite last_app.
  - destruct (IH (S a)
                (emit (Sleep 10000)
                   (emit (ConsoleError "Database initialization error:")
                      {| schema := s; trace := trace w ++ t |})))
      as (t' & s' & -> & Ha' & Hs' & He' & Hlog' & Hlast); [lia| |].
    { intros j Hj. rewrite Nat.add_succ_comm. apply Hfail. lia. }
    exists (t ++ [ConsoleError "Database initialization error:"; Sleep 10000]
              ++ t'), s'.
    split_and!.
    + unfold emit. simpl. by rewrite <- !app_assoc.
    + rewrite !attempts_app, Ha, Ha'. done.
    + rewrite !sleeps_app, Hs, Hs'. simpl. by rewrite Nat.sub_0_r.
    + rewrite !exits_app, He, He'. done.
    + intros m. rewrite !elem_of_app, !elem_of_cons, elem_of_nil.
      intros [?|[[|[|]]|?]]; try done; [by apply (Hlog m)|by apply (Hlog' m)].
    + rewrite !app_assoc, last_app, Hlast. done.
Qed.

(** X14.  [initDatabase] stops at the first attempt whose three statements
    all run: if that is attempt [i] of the five (counting from 0), both
    tables exist afterwards, exactly [i + 1] attempts were begun, the
    function waited ten seconds after each of the [i] failed ones, the
    process was not ended, and the last thing logged is the success
    line. *)
Theorem initDatabase_stops_at_first_success down s i :
  (i < 5)%nat →
  (∀ j, (j < i)%nat → attempt_fails down j = true) →
  attempt_fails down i = false →
  let w := initDatabase down s in
  schema w = {| has_mobile_searches := true; has_test_results := true |}
  ∧ attempts Select1 (trace w) = seq 0 (S i)
  ∧ sleeps (trace w) = replicate i 10000
  ∧ exits (trace w) = []
  ∧ last (trace w) = Some (ConsoleLog "Database initialized successfully").
Proof.
  intros Hi Hfail Hok w. subst w. unfold initDatabase.
  destruct (init_loop_succeeds down i 5 0 {| schema := s; trace := [] |})
    as (t & -> & ? & ? & ? & ?); done.
Qed.

Lemma initDatabase_stops_at_first_success_witness :
  let w := initDatabase (down_for 2) no_tables in
  schema w = {| has_mobile_searches := true; has_test_results := true |}
  ∧ attempts Select1 (trace w) = seq 0 3
  ∧ sleeps (trace w) = replicate 2 10000
  ∧ exits (trace w) = []
  ∧ last (trace w) = Some (ConsoleLog "Database initialized successfully").
Proof.
  apply (initDatabase_stops_at_first_success (down_for 2) no_tables 2).
  - lia.
  - intros [|[|j]] Hj; [reflexivity..|lia].
  - reflexivity.
Defined.

(** X15.  When all five attempts fail, [initDatabase] gives up without
    ending the process: five attempts were begun, ten seconds were waited
    between them (four waits, none after the last attempt), the success
    line was never logged, and the last thing logged is that the service
    continues without a database. *)
Theorem initDatabase_gives_up_after_five down s :
  (∀ j, (j < 5)%nat → attempt_fails down j = true) →
  let w := initDatabase down s in
  attempts Select1 (trace w) = [0; 1; 2; 3; 4]%nat
  ∧ sleeps (trace w) = [10000; 10000; 10000; 10000]
  ∧ exits (trace w) = []
  ∧ (∀ m, ConsoleLog m ∉ trace w)
  ∧ last (trace w)
    = Some (ConsoleError
              "Failed to initialize database after 5 attempts, continuing without DB").
Proof.
  intros Hfail w. subst w. unfold initDatabase.
  destruct (init_loop_exhausted down 5 0 {| schema := s; trace := [] |})
    as (t & s' & -> & Ha & Hs & He & Hlog & Hlast); [lia|done|].
  simpl. by rewrite Ha, Hs, He, Hlast.
Qed.

Lemma initDatabase_gives_up_after_five_witness :
  let w := initDatabase (down_for 5) no_tables in
  attempts Select1 (trace w) = [0; 1; 2; 3; 4]%nat
  ∧ sleeps (trace w) = [10000; 10000; 10000; 10000]
  ∧ exits (trace w) = []
  ∧ (∀ m, ConsoleLog m ∉ trace w)
  ∧ last (trace w)
    = Some (ConsoleError
              "Failed to initialize database after 5 attempts, continuing without DB").
Proof.
  apply (initDatabase_gives_up_after_five (down_for 5) no_tables).
  intros [|[|[|[|[|j]]]]] Hj; [reflexivity..|lia].
Defined.

End init_database.

(** * The earlier variants of the tracker *)

Section legacy.
Import LegacyTrackSearch.

Ltac unfold_legacy :=
  unfold served, run_handler, track_search, track_search_mysql,
    track_search_pg, Legacy.try_catch, Legacy.bind, Legacy.pool_execute,
    Legacy.ret, Legacy.console_error, Legacy.res_status_json, Legacy.res_json,
    Legacy.emit, Legacy.run.

(** X17.  The earlier variants validate before they track: a
    [mobileNumber] whose string conversion is not ten digits is answered
    400 without a single statement being sent, so the request leaves no
    trace in [mobile_searches], whatever the state of the storage layer. *)
Theorem legacy_validates_before_tracking v e req d :
  ten_digit_string (ToString (body_mobileNumber req)) = false →
  let invalid := {| Legacy.status := 400;
                    Legacy.body := Legacy.BError "Invalid mobile number" |} in
  run_handler v e req d
  = (Legacy.Normal tt,
     {| Legacy.db := d; Legacy.res := Some invalid;
        Legacy.trace := [Legacy.Respond invalid] |}).
Proof.
  intros Hs invalid. subst invalid.
  assert (invalid_mobile_number (body_mobileNumber req) = true) as Hinv.
  { rewrite invalid_iff_not_ten_digits. by rewrite Hs. }
  destruct v; unfold_legacy; by rewrite Hinv.
Qed.

Lemma legacy_validates_before_tracking_witness :
  let invalid := {| Legacy.status := 400;
                    Legacy.body := Legacy.BError "Invalid mobile number" |} in
  run_handler mysql (upsert_down 1000) (post JNull) sample_db
  = (Legacy.Normal tt,
     {| Legacy.db := sample_db; Legacy.res := Some invalid;
        Legacy.trace := [Legacy.Respond invalid] |}).
Proof.
  apply (legacy_validates_before_tracking mysql (upsert_down 1000) (post JNull)
           sample_db).
  reflexivity.
Defined.

Lemma select_search_upsert now k d :
  ∃ cols, Legacy.select_search k (upsert now k d)
          = [{| mobile_number := k; columns := cols |}]
          ∧ mobile_searches (upsert now k d) !! k = Some cols
          ∧ click_count cols = clicks k d + 1
          ∧ last_updated cols = now.
Proof.
  destruct (upsert_row now k d) as (cols & Hcols & Hnow & Hcount).
  exists cols. unfold Legacy.select_search. rewrite Hcols.
  split_and!; try done. rewrite Hcount. unfold clicks.
  by destruct (mobile_searches d !! k).
Qed.

(** X18.  In the earlier variants a valid number whose statements run is
    answered 200 with the record of that number as [data]: the record
    returned is the one now stored, its [click_count] is one higher than
    before (1 for a new number), and its [last_updated] is the current
    time; the only change to the tables is that upsert.  (On MySQL the
    row is read back by a second statement, which has to run too.) *)
Theorem legacy_returns_counted_record v e req d s :
  body_mobileNumber req = JStr s →
  ten_digit_string s = true →
  Legacy.storage_down e (tracking_statement v (JStr s)) = false →
  (v = mysql → Legacy.storage_down e (Legacy.SelectSearch (JStr s)) = false) →
  ∃ cols,
    run_handler v e req d
    = (Legacy.Normal tt,
       {| Legacy.db := upsert (Legacy.CURRENT_TIMESTAMP e) s d;
          Legacy.res :=
            Some {| Legacy.status := 200;
                    Legacy.body :=
                      Legacy.BTracked
                        (Some {| mobile_number := s; columns := cols |}) |};
          Legacy.trace :=
            match v with
            | mysql => [Legacy.Execute (Legacy.Upsert (JStr s));
                        Legacy.Execute (Legacy.SelectSearch (JStr s))]
            | pg => [Legacy.Execute (Legacy.UpsertReturning (JStr s))]
            end
            ++ [Legacy.Respond
                  {| Legacy.status := 200;
                     Legacy.body :=
                       Legacy.BTracked
                         (Some {| mobile_number := s; columns := cols |}) |}]
       |})
    ∧ mobile_searches (upsert (Legacy.CURRENT_TIMESTAMP e) s d) !! s = Some cols
    ∧ click_count cols = clicks s d + 1
    ∧ last_updated cols = Legacy.CURRENT_TIMESTAMP e.
Proof.
  intros Hmn Hs Hup Hsel. destruct (valid_string s Hs) as [Hinv _].
  destruct (select_search_upsert (Legacy.CURRENT_TIMESTAMP e) s d)
    as (cols & Hrows & Hcols & Hcount & Hnow).
  exists cols. split_and!; try done.
  destruct v; unfold_legacy; rewrite Hmn, Hinv; simpl in *;
    rewrite Hup; simpl.
  - rewrite (Hsel eq_refl). simpl. by rewrite Hrows.
  - by rewrite Hrows.
Qed.

Lemma legacy_returns_counted_record_witness :
  ∃ cols,
    run_handler mysql (storage_up 1000) (post (JStr "9876543210")) sample_db
    = (Legacy.Normal tt,
       {| Legacy.db := upsert 1000 "9876543210" sample_db;
          Legacy.res :=
            Some {| Legacy.status := 200;
                    Legacy.body :=
                      Legacy.BTracked
                        (Some {| mobile_number := "9876543210";
                                 columns := cols |}) |};
          Legacy.trace :=
            [Legacy.Execute (Legacy.Upsert (JStr "9876543210"));
             Legacy.Execute (Legacy.SelectSearch (JStr "9876543210"))]
            ++ [Legacy.Respond
                  {| Legacy.status := 200;
                     Legacy.body :=
                       Legacy.BTracked
                         (Some {| mobile_number := "9876543210";
                                  columns := cols |}) |}]
       |})
    ∧ mobile_searches (upsert 1000 "9876543210" sample_db) !! "9876543210"
      = Some cols
    ∧ click_count cols = clicks "9876543210" sample_db + 1
    ∧ last_updated cols = 1000.
Proof.
  apply (legacy_returns_counted_record mysql (storage_up 1000)
           (post (JStr "9876543210")) sample_db "9876543210");
    reflexivity.
Defined.

(** X19.  The earlier variants do not isolate the tracking write: when the
    upsert of a valid number fails, the failure is logged and the request
    is answered 500 with [{ error: 'Internal server error' }], the tables
    being as they were. *)
Theorem legacy_tracking_failure_surfaced v e req d s :
  body_mobileNumber req = JStr s →
  ten_digit_string s = true →
  Legacy.storage_down e (tracking_statement v (JStr s)) = true →
  let failed := {| Legacy.status := 500;
                   Legacy.body := Legacy.BError "Internal server error" |} in
  run_handler v e req d
  = (Legacy.Normal tt,
     {| Legacy.db := d; Legacy.res := Some failed;
        Legacy.trace := [Legacy.Execute (tracking_statement v (JStr s));
                         Legacy.ConsoleError "Track search error:";
                         Legacy.Respond failed] |}).
Proof.
  intros Hmn Hs Hdown failed. subst failed.
  destruct (valid_string s Hs) as [Hinv _].
  destruct v; unfold_legacy; rewrite Hmn, Hinv; simpl in *;
    by rewrite Hdown.
Qed.

Lemma legacy_tracking_failure_surfaced_witness :
  let failed := {| Legacy.status := 500;
                   Legacy.body := Legacy.BError "Internal server error" |} in
  run_handler pg (upsert_down 1000) (post (JStr "9876543210")) sample_db
  = (Legacy.Normal tt,
     {| Legacy.db := sample_db; Legacy.res := Some failed;
        Legacy.trace :=
          [Legacy.Execute (tracking_statement pg (JStr "9876543210"));
           Legacy.ConsoleError "Track search error:";
           Legacy.Respond failed] |}).
Proof.
  apply (legacy_tracking_failure_surfaced pg (upsert_down 1000)
           (post (JStr "9876543210")) sample_db "9876543210");
    reflexivity.
Defined.

(** X20.  On MySQL the earlier variant counts a click it then fails to
    report: when the upsert of a valid number runs and the query for the
    row fails, the request is answered 500, yet the count of the number is
    one higher. *)
Theorem legacy_counts_before_failed_read e req d s :
  body_mobileNumber req = JStr s →
  ten_digit_string s = true →
  Legacy.storage_down e (Legacy.Upsert (JStr s)) = false →
  Legacy.storage_down e (Legacy.SelectSearch (JStr s)) = true →
  let w := served mysql e req d in
  Legacy.res w
  = Some {| Legacy.status := 500;
            Legacy.body := Legacy.BError "Internal server error" |}
  ∧ clicks s (Legacy.db w) = clicks s d + 1.
Proof.
  intros Hmn Hs Hup Hdown w. subst w.
  destruct (valid_string s Hs) as [Hinv _].
  unfold_legacy. rewrite Hmn, Hinv. simpl. rewrite Hup. simpl.
  rewrite Hdown. simpl. split; [done|].
  rewrite clicks_upsert. by rewrite decide_True.
Qed.

Lemma legacy_counts_before_failed_read_witness :
  let w := served mysql (select_down 1000) (post (JStr "9876543210"))
             sample_db in
  Legacy.res w
  = Some {| Legacy.status := 500;
            Legacy.body := Legacy.BError "Internal server error" |}
  ∧ clicks "9876543210" (Legacy.db w) = clicks "9876543210" sample_db + 1.
Proof.
  apply (legacy_counts_before_failed_read (select_down 1000)
           (post (JStr "9876543210")) sample_db "9876543210");
    reflexivity.
Defined.

End legacy.
